(** * grbl_streamer: the flow-controlled G-code streaming loop

    A shallow embedding of [src/grbl_streamer.cpp]: the text source
    ([std::ifstream] with [getline] and [seekg]), the serial line reader
    ([readSerialLine]) and the streaming loop of [main] (lines 230-331),
    followed by the properties of the loop.

    Strings are lists of characters, C++ integers are [Z] with their
    conversions written out, the [std::queue] of pending lengths is a list
    (push at the back, pop at the front). *)

From Stdlib Require Import ZArith List Ascii String Bool Arith Lia.
Import ListNotations.

Local Open Scope Z_scope.

(** ** Characters and strings *)

Definition str := list ascii.

Definition lit (s : string) : str := list_ascii_of_string s.

Definition NL : ascii := "010"%char.
Definition CR : ascii := "013"%char.
Definition TAB : ascii := "009"%char.
Definition SP : ascii := " "%char.
Definition SEMI : ascii := ";"%char.

(** The character set [" \t\r\n"] used by every trimming call. *)
Definition WS : str := [SP; TAB; CR; NL].

Definition mem (c : ascii) (set : str) : bool :=
  existsb (Ascii.eqb c) set.

Definition is_ws (c : ascii) : bool := mem c WS.

(** ** Integer types

    [available] is an [int], lengths are [size_t]; mixed expressions are
    evaluated in [size_t] and narrowed back on assignment. *)

Definition to_size_t (z : Z) : Z := z mod 2 ^ 64.

Definition to_int (z : Z) : Z := (z + 2 ^ 31) mod 2 ^ 32 - 2 ^ 31.

(** [const int RX_BUFFER_SIZE = 127;] *)
Definition RX_BUFFER_SIZE : Z := 127.

(** ** [std::string] operations used by the program *)

(** [s.find(c)]: index of the first occurrence, [None] for [npos]. *)
Fixpoint find_char (c : ascii) (s : str) : option nat :=
  match s with
  | [] => None
  | x :: r =>
      if Ascii.eqb x c then Some O
      else match find_char c r with
           | Some i => Some (S i)
           | None => None
           end
  end.

(** [s.find_first_not_of(set)]. *)
Fixpoint find_first_not_of (set : str) (s : str) : option nat :=
  match s with
  | [] => None
  | x :: r =>
      if mem x set then
        match find_first_not_of set r with
        | Some i => Some (S i)
        | None => None
        end
      else Some O
  end.

(** [s.find_last_not_of(set)]. *)
Fixpoint find_last_not_of (set : str) (s : str) : option nat :=
  match s with
  | [] => None
  | x :: r =>
      match find_last_not_of set r with
      | Some i => Some (S i)
      | None => if mem x set then None else Some O
      end
  end.

(** [s.substr(pos)] and [s.substr(0, n)]. *)
Definition substr_from (pos : nat) (s : str) : str := skipn pos s.
Definition substr_to (n : nat) (s : str) : str := firstn n s.

(** [s.erase(pos)]: drops everything from index [pos] on. *)
Definition erase_from (pos : nat) (s : str) : str := firstn pos s.

(** [npos + 1] wraps to [0]. *)
Definition npos_succ (r : option nat) : nat :=
  match r with
  | Some i => S i
  | None => O
  end.

(** [s.find(t) != npos] for a pattern string. *)
Fixpoint starts_with (t s : str) : bool :=
  match t, s with
  | [], _ => true
  | _ :: _, [] => false
  | a :: t', b :: s' => Ascii.eqb a b && starts_with t' s'
  end.

Fixpoint contains (t s : str) : bool :=
  starts_with t s ||
  match s with
  | [] => false
  | _ :: s' => contains t s'
  end.

(** [std::tolower] in the "C" locale, applied to an [unsigned char]. *)
Definition tolower (c : ascii) : ascii :=
  let n := nat_of_ascii c in
  if (65 <=? n)%nat && (n <=? 90)%nat then ascii_of_nat (n + 32) else c.

(** ** The G-code file: [std::ifstream]

    The stream is the file's bytes, the get position and the two state
    bits the program can set. *)

Record ifstream := mk_ifstream {
  content : str;
  gpos : nat;
  eofbit : bool;
  failbit : bool
}.

Definition open_file (bytes : str) : ifstream :=
  mk_ifstream bytes O false false.

(** [std::getline(is, line)]: the sentry fails on a stream that is not
    good and sets [failbit], leaving [line] alone; otherwise [line] is
    erased and characters are extracted up to and including the next
    ['\n'] (not stored) or up to the end of the file ([eofbit]); extracting
    nothing sets [failbit].  The boolean is the stream's truth value,
    [!fail()]. *)
Definition getline (f : ifstream) (line : str) : ifstream * str * bool :=
  if eofbit f || failbit f then
    (mk_ifstream (content f) (gpos f) (eofbit f) true, line, false)
  else
    let rest := skipn (gpos f) (content f) in
    match find_char NL rest with
    | Some i =>
        (mk_ifstream (content f) (gpos f + i + 1) false false,
         firstn i rest, true)
    | None =>
        match rest with
        | [] => (mk_ifstream (content f) (gpos f) true true, [], false)
        | _ :: _ =>
            (mk_ifstream (content f) (gpos f + List.length rest) true false,
             rest, true)
        end
    end.

(** [is.seekg(off, std::ios::cur)] (C++11): [eofbit] is cleared first; on a
    stream that has failed nothing else happens; a position before the
    start of the file makes the seek fail and sets [failbit]. *)
Definition seekg_cur (f : ifstream) (off : Z) : ifstream :=
  if failbit f then mk_ifstream (content f) (gpos f) false true
  else
    let target := Z.of_nat (gpos f) + off in
    if target <? 0 then mk_ifstream (content f) (gpos f) false true
    else mk_ifstream (content f) (Z.to_nat target) false false.

(** ** Line filtering (lines 239-247)

    [None] stands for [continue]: the raw line produces no command. *)
Definition filter_line (line : str) : option str :=
  match line with
  | [] => None
  | _ :: _ =>
      let line1 :=
        match find_char SEMI line with
        | Some comment_pos => substr_to comment_pos line
        | None => line
        end in
      let line2 := erase_from (npos_succ (find_last_not_of WS line1)) line1 in
      match line2 with
      | [] => None
      | _ :: _ => Some line2
      end
  end.

(** The same filter following the words of the specification: keep the
    text before the first comment delimiter, drop trailing whitespace, emit
    nothing when nothing is left. *)
Fixpoint before_comment (s : str) : str :=
  match s with
  | [] => []
  | x :: r => if Ascii.eqb x SEMI then [] else x :: before_comment r
  end.

Fixpoint drop_leading_ws (s : str) : str :=
  match s with
  | [] => []
  | x :: r => if is_ws x then drop_leading_ws r else s
  end.

Definition drop_trailing_ws (s : str) : str :=
  rev (drop_leading_ws (rev s)).

Definition spec_command_record (raw : str) : option str :=
  match drop_trailing_ws (before_comment raw) with
  | [] => None
  | t => Some t
  end.



(** ** The serial device

    One [rx_event] is one pass through the body of the polling loop of
    [readSerialLine]: what [select] returned, whether the descriptor was
    reported readable, and what the one-byte [read] returned and stored.
    The device's future behaviour on the read side is a finite script of
    such events; when it is used up [select] never returns again. *)

Record rx_event := mk_rx {
  sel_ret : Z;
  fd_isset : bool;
  rd_ret : Z;
  rd_buf : ascii
}.

(** Messages on [std::cerr] and on [std::cout]. *)
Inductive err_msg :=
| PerrorSelect
| PerrorRead
| ErrWriting
| ErrGrbl (response : str).

Inductive out_msg :=
| OutSending (line : str) (len available : Z)
| OutWaiting (pending : nat) (available : Z)
| OutResponse (response : str)
| OutFreed (len available : Z)
| OutCompleted
| OutHalted.

(** [readSerialLine(fd, verbose)] (lines 48-83).  [None]: the loop is
    still inside [select] when the script ends, the call never returns.
    Otherwise the line read, the remaining script and what [perror]
    printed. *)
Fixpoint readSerialLine (rx : list rx_event) (line : str)
  : option (str * list rx_event * list err_msg) :=
  match rx with
  | [] => None
  | e :: rx' =>
      if sel_ret e =? -1 then Some (line, rx', [PerrorSelect])
      else if sel_ret e =? 0 then Some (line, rx', [])
      else if fd_isset e then
        if rd_ret e >? 0 then
          let line' := line ++ [rd_buf e] in
          if Ascii.eqb (rd_buf e) NL then Some (line', rx', [])
          else readSerialLine rx' line'
        else if rd_ret e =? 0 then Some (line, rx', [])
        else Some (line, rx', [PerrorRead])
      else readSerialLine rx' line
  end.

(** The connection as the loop sees it: the read script, the result of
    each [write] call (call number and requested size give the returned
    [ssize_t]), the number of [write] calls made and the bytes the device
    has received. *)
Record serial := mk_serial {
  rx : list rx_event;
  write_ret : nat -> Z -> Z;
  nwrites : nat;
  tx : str
}.

(** [write(fd, buf, size)]. *)
Definition dev_write (d : serial) (buf : str) : serial * Z :=
  let r := write_ret d (nwrites d) (Z.of_nat (List.length buf)) in
  (mk_serial (rx d) (write_ret d) (S (nwrites d))
             (tx d ++ firstn (Z.to_nat r) buf), r).

(** ** Program state of the streaming loop

    The local variables of [main] that are live from line 230 on, the two
    output streams, and a history of what the loop did to the connection
    and to its counters ([history] is not a program variable). *)

Inductive event :=
| EvWrite (buf : str) (ret : Z)
| EvSent (len : Z)
| EvRead (response : str)
| EvCredit (len : Z).

Record state := mk_state {
  gcode_file : ifstream;
  fd : serial;
  line : str;
  available : Z;
  pending_lengths : list Z;
  return_code : Z;
  cout : list out_msg;
  cerr : list err_msg;
  history : list event
}.

Definition set_file (st : state) (f : ifstream) (l : str) : state :=
  mk_state f (fd st) l (available st) (pending_lengths st)
           (return_code st) (cout st) (cerr st) (history st).

Definition set_fd (st : state) (d : serial) : state :=
  mk_state (gcode_file st) d (line st) (available st) (pending_lengths st)
           (return_code st) (cout st) (cerr st) (history st).

Definition set_budget (st : state) (a : Z) (q : list Z) : state :=
  mk_state (gcode_file st) (fd st) (line st) a q
           (return_code st) (cout st) (cerr st) (history st).

Definition set_return_code (st : state) (rc : Z) : state :=
  mk_state (gcode_file st) (fd st) (line st) (available st)
           (pending_lengths st) rc (cout st) (cerr st) (history st).

Definition print (st : state) (m : out_msg) : state :=
  mk_state (gcode_file st) (fd st) (line st) (available st)
           (pending_lengths st) (return_code st) (cout st ++ [m]) (cerr st)
           (history st).

Definition print_if (verbose : bool) (st : state) (m : out_msg) : state :=
  if verbose then print st m else st.

Definition eprint (st : state) (ms : list err_msg) : state :=
  mk_state (gcode_file st) (fd st) (line st) (available st)
           (pending_lengths st) (return_code st) (cout st) (cerr st ++ ms)
           (history st).

Definition record (st : state) (evs : list event) : state :=
  mk_state (gcode_file st) (fd st) (line st) (available st)
           (pending_lengths st) (return_code st) (cout st) (cerr st)
           (history st ++ evs).

(** Lines 230-233, with the file and the connection as they are when the
    loop is entered. *)
Definition init_state (f : ifstream) (d : serial) : state :=
  mk_state f d [] RX_BUFFER_SIZE [] 0 [] [] [].

(** Where control is: at the head of the inner [while] (line 237), at the
    backlog test that follows it (line 273), past the outer loop
    (line 319), or inside a [select] that never returns. *)
Inductive pc := PFill | PAck | PDone | PBlocked.

Definition config := (pc * state)%type.

(** [size_t len = line.length() + 1;]  The sum does not wrap: a
    [std::string] holds at most [max_size()] characters, which is below
    [2^63]. *)
Definition wire_length (l : str) : Z := Z.of_nat (List.length l) + 1.

(** One evaluation of the inner loop's condition and, when it holds, one
    pass through its body (lines 237-270). *)
Definition fill_iter (verbose : bool) (st : state) : config :=
  if available st >? 0 then
    match getline (gcode_file st) (line st) with
    | (f1, raw, true) =>
        match filter_line raw with
        | None => (PFill, set_file st f1 [])
        | Some l =>
            let len := wire_length l in
            if len >? to_size_t (available st) then
              (PAck, set_file st (seekg_cur f1 (- (Z.of_nat (List.length l) + 1))) l)
            else
              let send_line := l ++ [NL] in
              let st1 :=
                print_if verbose (set_file st f1 l)
                         (OutSending l len (available st)) in
              let '(d, r) := dev_write (fd st1) send_line in
              let st2 := record (set_fd st1 d) [EvWrite send_line r] in
              if negb (r =? Z.of_nat (List.length send_line)) then
                (PAck, set_return_code (eprint st2 [ErrWriting]) 1)
              else
                (PFill,
                 record
                   (set_budget st2
                      (to_int (to_size_t (to_size_t (available st2) - len)))
                      (pending_lengths st2 ++ [len]))
                   [EvSent len])
        end
    | (f1, l, false) => (PAck, set_file st f1 l)
    end
  else (PAck, st).

(** Lines 286-299: trim both ends, then lower-case. *)
Definition trim_response (response : str) : str :=
  let r1 :=
    match find_first_not_of WS response with
    | Some start => substr_from start response
    | None => response
    end in
  match find_last_not_of WS r1 with
  | Some e => substr_to (e + 1) r1
  | None => r1
  end.

Definition OK_TOKEN : str := lit "ok".

(** Line 301: [lower_response.find("ok") != npos]. *)
Definition is_ack (response : str) : bool :=
  contains OK_TOKEN (map tolower (trim_response response)).

(** Lines 272-316: the backlog test, the blocking read and the
    classification of the response. *)
Definition ack_phase (verbose : bool) (st : state) : config :=
  match pending_lengths st with
  | [] => (PDone, st)
  | _ :: _ =>
      let st1 :=
        print_if verbose st
          (OutWaiting (List.length (pending_lengths st)) (available st)) in
      match readSerialLine (rx (fd st1)) [] with
      | None => (PBlocked, st1)
      | Some (response, rx', perrs) =>
          let d :=
            mk_serial rx' (write_ret (fd st1)) (nwrites (fd st1)) (tx (fd st1)) in
          let st2 := record (eprint (set_fd st1 d) perrs) [EvRead response] in
          let st3 := print_if verbose st2 (OutResponse response) in
          if is_ack response then
            let st4 :=
              match pending_lengths st3 with
              | len :: rest =>
                  let a := to_int (to_size_t (to_size_t (available st3) + len)) in
                  print_if verbose
                    (record (set_budget st3 a rest) [EvCredit len])
                    (OutFreed len a)
              | [] => st3
              end in
            if negb (return_code st4 =? 0) then (PDone, st4) else (PFill, st4)
          else
            (PDone, eprint st3 [ErrGrbl (trim_response response)])
      end
  end.

Definition step (verbose : bool) (c : config) : config :=
  match fst c with
  | PFill => fill_iter verbose (snd c)
  | PAck => ack_phase verbose (snd c)
  | PDone => c
  | PBlocked => c
  end.

Fixpoint run_loop (verbose : bool) (fuel : nat) (c : config) : config :=
  match fuel with
  | O => c
  | S k =>
      match fst c with
      | PDone => c
      | PBlocked => c
      | _ => run_loop verbose k (step verbose c)
      end
  end.

(** Lines 319-331: the closing message and the value returned by [main]. *)
Definition finish (verbose : bool) (st : state) : state * Z :=
  (print_if verbose st
     (if return_code st =? 0 then OutCompleted else OutHalted),
   return_code st).

(** [main] from line 230 on, with the file and the connection as the
    lines before have opened them: [Some] of the final state and the value
    returned when the loop is left within [fuel] steps. *)
Definition main (verbose : bool) (fuel : nat) (f : ifstream) (d : serial)
  : option (state * Z) :=
  match run_loop verbose fuel (PFill, init_state f d) with
  | (PDone, st) => Some (finish verbose st)
  | _ => None
  end.

(** The states the loop can be in. *)
Inductive reachable (verbose : bool) (f : ifstream) (d : serial)
  : config -> Prop :=
| reach_init : reachable verbose f d (PFill, init_state f d)
| reach_step c :
    reachable verbose f d c -> reachable verbose f d (step verbose c).

(** ** Notions used by the statements *)

(** Sum of the Pending Backlog. *)
Definition sum_lengths (q : list Z) : Z := fold_right Z.add 0 q.

(** The conservation invariant of the buffer budget. *)
Definition budget_ok (st : state) : Prop :=
  0 <= available st /\
  available st + sum_lengths (pending_lengths st) = RX_BUFFER_SIZE /\
  Forall (fun len => 0 <= len) (pending_lengths st).

(** What one step did to the budget, read off the history it appended:
    nothing, a successful write of [len] bytes followed by the debit, or a
    positive acknowledgment followed by the credit of the backlog head. *)
Inductive budget_change (st st' : state) : Prop :=
| budget_same :
    available st' = available st ->
    pending_lengths st' = pending_lengths st ->
    (forall len, ~ In (EvSent len) (skipn (List.length (history st)) (history st'))) ->
    (forall len, ~ In (EvCredit len) (skipn (List.length (history st)) (history st'))) ->
    budget_change st st'
| budget_debit buf len :
    history st' = history st ++ [EvWrite buf len; EvSent len] ->
    Z.of_nat (List.length buf) = len ->
    available st' = available st - len ->
    pending_lengths st' = pending_lengths st ++ [len] ->
    budget_change st st'
| budget_credit response len :
    history st' = history st ++ [EvRead response; EvCredit len] ->
    is_ack response = true ->
    pending_lengths st = len :: pending_lengths st' ->
    available st' = available st + len ->
    budget_change st st'.

(** The lengths debited, the lengths credited and the responses read, in
    the order the history holds them. *)
Fixpoint sent_lengths (h : list event) : list Z :=
  match h with
  | [] => []
  | EvSent len :: h' => len :: sent_lengths h'
  | _ :: h' => sent_lengths h'
  end.

Fixpoint credits (h : list event) : list Z :=
  match h with
  | [] => []
  | EvCredit len :: h' => len :: credits h'
  | _ :: h' => credits h'
  end.

Fixpoint responses (h : list event) : list str :=
  match h with
  | [] => []
  | EvRead r :: h' => r :: responses h'
  | _ :: h' => responses h'
  end.

Fixpoint writes (h : list event) : list (str * Z) :=
  match h with
  | [] => []
  | EvWrite buf ret :: h' => (buf, ret) :: writes h'
  | _ :: h' => writes h'
  end.

(** Where control goes on a step that touches neither the connection nor
    the backlog. *)
Definition idle_next (p p' : pc) : Prop :=
  match p with
  | PFill => p' = PFill \/ p' = PAck
  | PAck => p' = PDone \/ p' = PBlocked
  | PDone => p' = PDone
  | PBlocked => p' = PBlocked
  end.

(** The five things one step can do to the connection and the backlog:
    nothing; a [write] that does not return the full size; a [write] that
    does, with the debit; a response classified as acknowledgment, with the
    credit; a response classified as error. *)
Inductive step_effect (p : pc) (st : state) (p' : pc) (st' : state) : Prop :=
| eff_none :
    history st' = history st ->
    pending_lengths st' = pending_lengths st ->
    available st' = available st ->
    fd st' = fd st ->
    return_code st' = return_code st ->
    cerr st' = cerr st ->
    idle_next p p' ->
    step_effect p st p' st'
| eff_write_failed buf r :
    p = PFill -> p' = PAck ->
    history st' = history st ++ [EvWrite buf r] ->
    r <> Z.of_nat (List.length buf) ->
    pending_lengths st' = pending_lengths st ->
    available st' = available st ->
    nwrites (fd st') = S (nwrites (fd st)) ->
    rx (fd st') = rx (fd st) ->
    return_code st' = 1 ->
    step_effect p st p' st'
| eff_sent buf len :
    p = PFill -> p' = PFill ->
    history st' = history st ++ [EvWrite buf len; EvSent len] ->
    len = Z.of_nat (List.length buf) ->
    pending_lengths st' = pending_lengths st ++ [len] ->
    nwrites (fd st') = S (nwrites (fd st)) ->
    rx (fd st') = rx (fd st) ->
    tx (fd st') = tx (fd st) ++ buf ->
    return_code st' = return_code st ->
    step_effect p st p' st'
| eff_ack r len :
    p = PAck ->
    p' = (if return_code st =? 0 then PFill else PDone) ->
    history st' = history st ++ [EvRead r; EvCredit len] ->
    is_ack r = true ->
    pending_lengths st = len :: pending_lengths st' ->
    nwrites (fd st') = nwrites (fd st) ->
    tx (fd st') = tx (fd st) ->
    return_code st' = return_code st ->
    step_effect p st p' st'
| eff_error r :
    p = PAck -> p' = PDone ->
    history st' = history st ++ [EvRead r] ->
    is_ack r = false ->
    pending_lengths st' = pending_lengths st ->
    available st' = available st ->
    nwrites (fd st') = nwrites (fd st) ->
    tx (fd st') = tx (fd st) ->
    cerr st' = cerr st ++
               match readSerialLine (rx (fd st)) [] with
               | Some (_, _, perrs) => perrs
               | None => []
               end ++ [ErrGrbl (trim_response r)] ->
    return_code st' = return_code st ->
    step_effect p st p' st'.

(** Every response read so far was classified as acknowledgment, except
    that the loop may have just been left on one that was not. *)
Definition halt_ok (c : config) : Prop :=
  let h := history (snd c) in
  List.length (credits h) = List.length (filter is_ack (responses h)) /\
  (forallb is_ack (responses h) = true \/
   (fst c = PDone /\
    exists h0 r e0,
      h = h0 ++ [EvRead r] /\ is_ack r = false /\
      forallb is_ack (responses h0) = true /\
      cerr (snd c) = e0 ++ [ErrGrbl (trim_response r)])).

(** The events that follow the first [write] that did not transfer the
    whole buffer, if there is one. *)
Fixpoint after_failed_write (h : list event) : option (list event) :=
  match h with
  | [] => None
  | EvWrite buf r :: h' =>
      if r =? Z.of_nat (List.length buf) then after_failed_write h'
      else Some h'
  | _ :: h' => after_failed_write h'
  end.

(** After such a [write] the return code is 1, nothing more is written
    and at most one response is read. *)
Definition write_failure_ok (c : config) : Prop :=
  match after_failed_write (history (snd c)) with
  | None => return_code (snd c) = 0
  | Some h1 =>
      return_code (snd c) = 1 /\
      writes h1 = [] /\
      ((fst c = PAck /\ h1 = []) \/
       ((fst c = PDone \/ fst c = PBlocked) /\
        (List.length (responses h1) <= 1)%nat))
  end.

(** The bytes of a response that is not complete. *)
Definition no_newline (s : str) : bool :=
  forallb (fun ch => negb (Ascii.eqb ch NL)) s.

(** The state without what was printed on [std::cout]. *)
Definition low (st : state) : state :=
  mk_state (gcode_file st) (fd st) (line st) (available st)
           (pending_lengths st) (return_code st) [] (cerr st) (history st).

Definition low_config (c : config) : config := (fst c, low (snd c)).

(** The device's script answers the next [n] reads with complete responses
    that are classified as acknowledgments. *)
Fixpoint supplies_acks (n : nat) (script : list rx_event) : bool :=
  match n with
  | O => true
  | S k =>
      match readSerialLine script [] with
      | Some (response, script', _) =>
          is_ack response && supplies_acks k script'
      | None => false
      end
  end.

(** Every [write] transfers the whole buffer. *)
Definition writes_complete (d : serial) : Prop :=
  forall i size, write_ret d i size = size.

(** The stream can still deliver characters. *)
Definition alive (f : ifstream) : bool := negb (eofbit f) && negb (failbit f).

(** What the termination argument keeps track of.  [floor] is the file
    position just after the last line that was sent: the get position
    never falls more than one character (that line's newline) below
    it. *)
Record term_inv (bytes : str) (floor : nat) (c : config) : Prop := {
  ti_content : content (gcode_file (snd c)) = bytes;
  ti_pos : (gpos (gcode_file (snd c)) <= List.length bytes)%nat;
  ti_floor : (floor <= List.length bytes)%nat;
  ti_floor_nl :
    alive (gcode_file (snd c)) = true ->
    floor = O \/ nth_error bytes (floor - 1) = Some NL;
  ti_pos_floor :
    alive (gcode_file (snd c)) = true ->
    (floor <= gpos (gcode_file (snd c)))%nat \/
    (gpos (gcode_file (snd c)) + 1)%nat = floor;
  ti_rc : return_code (snd c) = 0;
  ti_writes : writes_complete (fd (snd c));
  ti_supply :
    supplies_acks (List.length (pending_lengths (snd c))
                   + (List.length bytes - floor))
                  (rx (fd (snd c))) = true;
  ti_pc : fst c <> PBlocked;
  ti_done : fst c = PDone -> pending_lengths (snd c) = []
}.

Definition term_measure (bytes : str) (floor : nat) (c : config) : nat :=
  ((2 * (List.length bytes - floor)
    + List.length (pending_lengths (snd c))) * (List.length bytes + 3)
   + match fst c with
     | PFill => List.length bytes - gpos (gcode_file (snd c)) + 2
     | PAck => 1
     | PDone => 0
     | PBlocked => 0
     end)%nat.

(** Steps that are enough for a file of [n] bytes. *)
Definition enough_fuel (n : nat) : nat := S ((2 * n) * (n + 3) + n + 2).

(** ** Sample inputs *)

(** The events of a device that delivers the bytes of [s], one per
    [read]. *)
Definition rx_bytes (s : str) : list rx_event :=
  map (fun c => mk_rx 1 true 1 c) s.

(** [n] responses ["ok\r\n"]. *)
Fixpoint ok_script (n : nat) : list rx_event :=
  match n with
  | O => []
  | S k => rx_bytes (lit "ok" ++ [CR; NL]) ++ ok_script k
  end.

Definition full_write : nat -> Z -> Z := fun _ size => size.

(** A device that accepts every [write] in full. *)
Definition sample_device (script : list rx_event) : serial :=
  mk_serial script full_write O [].

(** The four-line source of the specification's end-to-end scenario. *)
Definition sample_file : ifstream :=
  open_file (lit "G1 X10 F100" ++ [NL; NL] ++ lit "; comment only" ++ [NL]
             ++ lit "G1 Y10" ++ [NL]).

Definition three_commands : ifstream :=
  open_file (lit "G0" ++ [NL] ++ lit "G1 X1" ++ [NL] ++ lit "G1 X10 Y5" ++ [NL]).

Definition five_commands : ifstream :=
  open_file (lit "G1 X1" ++ [NL] ++ lit "G1 X2" ++ [NL] ++ lit "G1 X3" ++ [NL]
             ++ lit "G1 X4" ++ [NL] ++ lit "G1 X5" ++ [NL]).

(** The device answers ["ok"] and then ["error:9"]. *)
Definition error9_device : serial :=
  sample_device (rx_bytes (lit "ok" ++ [NL] ++ lit "error:9" ++ [NL])).




(** One command; the connection is closed ([read] returns 0), or [read]
    fails (returns -1), at the first byte of the response. *)
Definition one_command : ifstream := open_file (lit "G0" ++ [NL]).

Definition closed_device : serial :=
  sample_device [mk_rx 1 true 0 zero].

Definition failing_device : serial :=
  sample_device [mk_rx 1 true (-1) zero].

(** A line of 130 characters followed by a short command. *)
Definition oversize_file : ifstream :=
  open_file (repeat "X"%char 130 ++ [NL] ++ lit "G1" ++ [NL]).

(** A line of 100 characters, then one of 40 characters that carries a
    comment, then a short command. *)
Definition commented_file : ifstream :=
  open_file (repeat "X"%char 100 ++ [NL]
             ++ repeat "Y"%char 40 ++ lit " ; c" ++ [NL]
             ++ lit "G1" ++ [NL]).

(** A device that keeps acknowledging but whose third [write] returns
    -1. *)
Definition third_write_fails : serial :=
  mk_serial (ok_script 20) (fun i size => if (i =? 2)%nat then -1 else size)
            O [].

(** ** Notions used by the further properties *)

(** An event whose byte [readSerialLine] appends to the line. *)
Definition delivers (e : rx_event) : bool :=
  negb (sel_ret e =? -1) && negb (sel_ret e =? 0) && fd_isset e
  && (rd_ret e >? 0).

(** The bytes a run of events appends, in order. *)
Definition delivered (es : list rx_event) : str :=
  map rd_buf (filter delivers es).

(** An event after which the polling loop goes round again. *)
Definition continues (e : rx_event) : bool :=
  negb (sel_ret e =? -1) && negb (sel_ret e =? 0)
  && (negb (fd_isset e)
      || ((rd_ret e >? 0) && negb (Ascii.eqb (rd_buf e) NL))).

(** What [perror] prints on the event that ends the loop. *)
Definition perror_of (e : rx_event) : list err_msg :=
  if sel_ret e =? -1 then [PerrorSelect]
  else if sel_ret e =? 0 then []
  else if fd_isset e && negb (rd_ret e >? 0) && negb (rd_ret e =? 0)
       then [PerrorRead]
       else [].

(** A buffer the loop may hand to [write]: one filtered command that
    holds no newline, followed by a newline, of at most [RX_BUFFER_SIZE]
    bytes in all. *)
Definition command_buffer (buf : str) : Prop :=
  exists l,
    buf = l ++ [NL] /\ filter_line l = Some l /\ no_newline l = true /\
    Z.of_nat (List.length buf) <= RX_BUFFER_SIZE.

(** A [write] that did not transfer the whole buffer. *)
Definition short_write (w : str * Z) : Prop :=
  snd w <> Z.of_nat (List.length (fst w)).

(** What the file position obeys on every run, whatever the device
    does: the part of [term_inv] that speaks of the file alone. *)
Record loop_inv (bytes : str) (floor : nat) (c : config) : Prop := {
  li_content : content (gcode_file (snd c)) = bytes;
  li_pos : (gpos (gcode_file (snd c)) <= List.length bytes)%nat;
  li_floor : (floor <= List.length bytes)%nat;
  li_floor_nl :
    alive (gcode_file (snd c)) = true ->
    floor = O \/ nth_error bytes (floor - 1) = Some NL;
  li_pos_floor :
    alive (gcode_file (snd c)) = true ->
    (floor <= gpos (gcode_file (snd c)))%nat \/
    (gpos (gcode_file (snd c)) + 1)%nat = floor
}.

(** A file given by its lines, each ended by a newline, and what the
    filter of lines 239-247 makes of it. *)
Definition join (lines : list str) : str :=
  flat_map (fun raw => raw ++ [NL]) lines.

Definition emit_line (raw : str) : str :=
  match filter_line raw with
  | Some l => l ++ [NL]
  | None => []
  end.

Definition emit (lines : list str) : str := flat_map emit_line lines.

(** A line that survives being held back: it gives no command, or it is
    its own command (no comment, no trailing whitespace) and fits the
    buffer. *)
Definition streamable_line (raw : str) : Prop :=
  no_newline raw = true /\
  (filter_line raw = None \/
   (filter_line raw = Some raw /\ wire_length raw <= RX_BUFFER_SIZE)).

(** The file position is at the start of a line and the device has
    received the commands of the lines before it; or the end of the file
    was reached and the device has received all commands. *)
Definition stream_inv (lines : list str) (tx0 : str) (c : config) : Prop :=
  content (gcode_file (snd c)) = join lines /\
  return_code (snd c) = 0 /\
  writes_complete (fd (snd c)) /\
  ((alive (gcode_file (snd c)) = true /\
    (exists done todo,
        lines = done ++ todo /\
        gpos (gcode_file (snd c)) = List.length (join done) /\
        tx (fd (snd c)) = tx0 ++ emit done) /\
    (fst c = PFill \/ pending_lengths (snd c) <> [])) \/
   (alive (gcode_file (snd c)) = false /\
    tx (fd (snd c)) = tx0 ++ emit lines)).

(** ** The program before the loop (lines 19-44 and 98-229)

    [speed_t] holds the names of the [B...] macros of [<termios.h>] that
    the program uses; their values play no part. *)
Inductive speed_t :=
| B0 | B50 | B75 | B110 | B134 | B150 | B200 | B300 | B600 | B1200 | B1800
| B2400 | B4800 | B9600 | B19200 | B38400 | B57600 | B115200 | B230400.

(** [get_baudrate] (lines 19-44).  [None]: the [default] branch, which
    reports the rate on [std::cerr] and calls [exit(1)]. *)
Definition get_baudrate (baud : Z) : option speed_t :=
  if baud =? 50 then Some B50
  else if baud =? 75 then Some B75
  else if baud =? 110 then Some B110
  else if baud =? 134 then Some B134
  else if baud =? 150 then Some B150
  else if baud =? 200 then Some B200
  else if baud =? 300 then Some B300
  else if baud =? 600 then Some B600
  else if baud =? 1200 then Some B1200
  else if baud =? 1800 then Some B1800
  else if baud =? 2400 then Some B2400
  else if baud =? 4800 then Some B4800
  else if baud =? 9600 then Some B9600
  else if baud =? 19200 then Some B19200
  else if baud =? 38400 then Some B38400
  else if baud =? 57600 then Some B57600
  else if baud =? 115200 then Some B115200
  else if baud =? 230400 then Some B230400
  else None.

(** What one call of [getopt_long] gave the loop of lines 115-136: the
    option found, with [optarg] where the option takes one; for ['b'] also
    what [std::stoi(optarg)] returned, [None] when it threw.  The list ends
    where [getopt_long] returned -1. *)
Inductive cli_event :=
| GetoptS (optarg : str)
| GetoptF (optarg : str)
| GetoptB (optarg : str) (stoi : option Z)
| GetoptV
| GetoptH
| GetoptOther (opt : Z).

(** The four variables the option loop sets (lines 99-102). *)
Record options := mk_options {
  serial_device : option str;
  gcode_file_path : option str;
  baud_int : Z;
  verbose_opt : bool
}.

Definition default_options : options := mk_options None None 115200 false.

(** How the option loop ends: all options read, a [return] from inside
    the [switch], or the exception of [std::stoi] that nothing catches. *)
Inductive parse_end :=
| Parsed (o : options)
| ParseReturn (status : Z)
| ParseThrow.

Fixpoint parse_options (cli : list cli_event) (o : options) : parse_end :=
  match cli with
  | [] => Parsed o
  | GetoptS a :: rest =>
      parse_options rest
        (mk_options (Some a) (gcode_file_path o) (baud_int o) (verbose_opt o))
  | GetoptF a :: rest =>
      parse_options rest
        (mk_options (serial_device o) (Some a) (baud_int o) (verbose_opt o))
  | GetoptB _ (Some n) :: rest =>
      parse_options rest
        (mk_options (serial_device o) (gcode_file_path o) n (verbose_opt o))
  | GetoptB _ None :: _ => ParseThrow
  | GetoptV :: rest =>
      parse_options rest
        (mk_options (serial_device o) (gcode_file_path o) (baud_int o) true)
  | GetoptH :: _ => ParseReturn 0
  | GetoptOther _ :: _ => ParseReturn 1
  end.

(** What the operating system answers during the set-up: the results of
    [open], of [tcsetattr] and of the [select] with the one-second timeout
    of line 207, the connection as it is when the wake-up bytes are
    written, and the bytes of the G-code file if it can be opened. *)
Record setup_env := mk_env {
  open_ret : Z;
  tcsetattr_ret : Z;
  initial_select : Z;
  device : serial;
  gcode : option str
}.

(** The calls the program makes on the descriptor and on the file, in
    order.  [ScStream] stands for the calls of the streaming loop, which
    its [history] lists. *)
Inductive syscall :=
| ScOpen (path : str) (ret : Z)
| ScTcgetattr
| ScCfsetispeed (speed : speed_t)
| ScCfsetospeed (speed : speed_t)
| ScTcflush
| ScTcsetattr (ret : Z)
| ScWrite (buf : str) (ret : Z)
| ScSleep (seconds : Z)
| ScSelect (ret : Z)
| ScReadLine (response : option str)
| ScOpenFile (path : str) (ok : bool)
| ScStream (h : list event)
| ScCloseFile
| ScClose.

(** Messages of the set-up on [std::cout] and [std::cerr]; [MHelp] is the
    text of [printHelp] (lines 86-96). *)
Inductive setup_out :=
| MHelp (progName : str)
| MOpening (dev : str)
| MOpened
| MConfiguring (baud : Z)
| MConfigured
| MWaking
| MWoken
| MInitial (response : str)
| MOpeningFile (path : str)
| MFileOpened.

Inductive setup_err :=
| EUnsupportedBaud (baud : Z)
| ERequired
| EOpenSerial (dev : str)
| ESetAttr
| EOpenFile (path : str).

Inductive console_out := Setup (m : setup_out) | Streaming (m : out_msg).
Inductive console_err := SetupErr (e : setup_err) | StreamErr (e : err_msg).

(** How the process ends. *)
Inductive outcome :=
| Returned (status : Z)
| Exited (status : Z)
| Terminated
| Waiting
| Running.

Record result := mk_result {
  status : outcome;
  console : list console_out;
  errors : list console_err;
  calls : list syscall;
  stream_state : option state
}.

Definition says (v : bool) (ms : list setup_out) : list console_out :=
  if v then map Setup ms else [].

(** ["\r\n\r\n"], line 192. *)
Definition wake_up : str := [CR; NL; CR; NL].

(** Lines 199-214: the bounded wait for a start-up banner, then the
    unbounded read of one line.  [None]: the read never returns. *)
Definition initial_response (retval : Z) (d : serial)
  : option (serial * list console_out * list console_err * list syscall) :=
  if retval >? 0 then
    match readSerialLine (rx d) [] with
    | None => None
    | Some (response, rx', perrs) =>
        Some (mk_serial rx' (write_ret d) (nwrites d) (tx d),
              match response with
              | [] => []
              | _ :: _ => [Setup (MInitial response)]
              end,
              map StreamErr perrs,
              [ScSelect retval; ScReadLine (Some response)])
    end
  else Some (d, [], [], [ScSelect retval]).

(** Lines 151-331, once the options name a device and a file. *)
Definition run_with (o : options) (dev path : str) (env : setup_env)
           (fuel : nat) : result :=
  let v := verbose_opt o in
  let out1 := says v [MOpening dev] in
  let c1 := [ScOpen dev (open_ret env)] in
  if open_ret env =? -1 then
    mk_result (Returned 1) out1 [SetupErr (EOpenSerial dev)] c1 None
  else
    let out2 := out1 ++ says v [MOpened; MConfiguring (baud_int o)] in
    match get_baudrate (baud_int o) with
    | None =>
        mk_result (Exited 1) out2 [SetupErr (EUnsupportedBaud (baud_int o))]
                  c1 None
    | Some baudrate =>
        let c2 := c1 ++ [ScTcgetattr; ScCfsetispeed baudrate;
                         ScCfsetospeed baudrate; ScTcflush;
                         ScTcsetattr (tcsetattr_ret env)] in
        if negb (tcsetattr_ret env =? 0) then
          mk_result (Returned 1) out2 [SetupErr ESetAttr] (c2 ++ [ScClose])
                    None
        else
          let out3 := out2 ++ says v [MConfigured; MWaking] in
          let '(d1, r) := dev_write (device env) wake_up in
          let c3 := c2 ++ [ScWrite wake_up r; ScSleep 2; ScTcflush] in
          let out4 := out3 ++ says v [MWoken] in
          match initial_response (initial_select env) d1 with
          | None =>
              mk_result Waiting out4 []
                        (c3 ++ [ScSelect (initial_select env);
                                ScReadLine None]) None
          | Some (d2, banner, perrs, c_init) =>
              let out5 := out4 ++ banner ++ says v [MOpeningFile path] in
              let c4 := c3 ++ c_init in
              match gcode env with
              | None =>
                  mk_result (Returned 1) out5
                            (perrs ++ [SetupErr (EOpenFile path)])
                            (c4 ++ [ScOpenFile path false; ScClose]) None
              | Some bytes =>
                  let out6 := out5 ++ says v [MFileOpened] in
                  let c5 := c4 ++ [ScOpenFile path true] in
                  match run_loop v fuel
                                 (PFill, init_state (open_file bytes) d2) with
                  | (PDone, st) =>
                      let '(st', rc) := finish v st in
                      mk_result (Returned rc)
                                (out6 ++ map Streaming (cout st'))
                                (perrs ++ map StreamErr (cerr st'))
                                (c5 ++ [ScStream (history st');
                                        ScCloseFile; ScClose])
                                (Some st')
                  | (PBlocked, st) =>
                      mk_result Waiting
                                (out6 ++ map Streaming (cout st))
                                (perrs ++ map StreamErr (cerr st))
                                (c5 ++ [ScStream (history st)])
                                (Some st)
                  | (_, st) =>
                      mk_result Running
                                (out6 ++ map Streaming (cout st))
                                (perrs ++ map StreamErr (cerr st))
                                (c5 ++ [ScStream (history st)])
                                (Some st)
                  end
              end
          end
    end.

(** The whole of [main] (lines 98-332): [argc], [argv[0]], what
    [getopt_long] finds, and the environment.  The streaming loop is the
    one of [main] above, given [fuel] steps. *)
Definition main_argv (argc : Z) (progName : str) (cli : list cli_event)
           (env : setup_env) (fuel : nat) : result :=
  match parse_options cli default_options with
  | ParseThrow => mk_result Terminated [] [] [] None
  | ParseReturn st =>
      mk_result (Returned st) [Setup (MHelp progName)] [] [] None
  | Parsed o =>
      if argc =? 1 then
        mk_result (Returned 0) [Setup (MHelp progName)] [] [] None
      else
        match serial_device o, gcode_file_path o with
        | Some dev, Some path => run_with o dev path env fuel
        | _, _ =>
            mk_result (Returned 1) [Setup (MHelp progName)]
                      [SetupErr ERequired] [] None
        end
  end.

(** Notions for the option loop: the options that end it, and the last
    argument given for each setting. *)
Definition stops (e : cli_event) : bool :=
  match e with
  | GetoptH => true
  | GetoptOther _ => true
  | GetoptB _ None => true
  | _ => false
  end.

Definition last_serial (cli : list cli_event) (d : option str) : option str :=
  fold_left (fun acc e => match e with GetoptS a => Some a | _ => acc end)
            cli d.

Definition last_file (cli : list cli_event) (d : option str) : option str :=
  fold_left (fun acc e => match e with GetoptF a => Some a | _ => acc end)
            cli d.

Definition last_baud (cli : list cli_event) (d : Z) : Z :=
  fold_left (fun acc e => match e with GetoptB _ (Some n) => n | _ => acc end)
            cli d.

Definition asks_verbose (e : cli_event) : bool :=
  match e with
  | GetoptV => true
  | _ => false
  end.

(** The command line without its [-v] options. *)
Definition quiet (cli : list cli_event) : list cli_event :=
  filter (fun e => negb (asks_verbose e)) cli.

(** The calls up to and including the wake-up of the device. *)
Definition configured_prefix (dev : str) (fdesc : Z) (speed : speed_t)
           (r : Z) : list syscall :=
  [ScOpen dev fdesc; ScTcgetattr; ScCfsetispeed speed; ScCfsetospeed speed;
   ScTcflush; ScTcsetattr 0; ScWrite wake_up r; ScSleep 2; ScTcflush].

(** A call that hands bytes to the device. *)
Definition writes_device (c : syscall) : bool :=
  match c with
  | ScWrite _ _ => true
  | ScStream h =>
      match writes h with
      | [] => false
      | _ :: _ => true
      end
  | _ => false
  end.

(** A command line and an environment in which everything works:
    [-S /dev/ttyUSB0 -f example.gcode -v], the scenario file, a device that
    shows no banner and acknowledges twice. *)
Definition sample_cli : list cli_event :=
  [GetoptS (lit "/dev/ttyUSB0"); GetoptF (lit "example.gcode"); GetoptV].

Definition sample_env : setup_env :=
  mk_env 3 0 0 (sample_device (ok_script 2)) (Some (content sample_file)).

(** * Properties *)

(** ** Strings *)

Lemma find_char_before_comment (s : str) :
  match find_char SEMI s with
  | Some i => substr_to i s
  | None => s
  end = before_comment s.
Proof.
  induction s as [|x r IH]; simpl; [reflexivity|].
  destruct (Ascii.eqb x SEMI); [reflexivity|].
  destruct (find_char SEMI r); rewrite <- IH; reflexivity.
Qed.

Lemma drop_leading_ws_snoc (l : str) (x : ascii) :
  drop_leading_ws (l ++ [x]) =
  match drop_leading_ws l with
  | [] => if is_ws x then [] else [x]
  | y => y ++ [x]
  end.
Proof.
  induction l as [|a l IH]; simpl; [reflexivity|].
  destruct (is_ws a); [exact IH | reflexivity].
Qed.

Lemma drop_trailing_ws_cons (x : ascii) (r : str) :
  drop_trailing_ws (x :: r) =
  match drop_trailing_ws r with
  | [] => if is_ws x then [] else [x]
  | y => x :: y
  end.
Proof.
  unfold drop_trailing_ws; simpl.
  rewrite drop_leading_ws_snoc.
  destruct (drop_leading_ws (rev r)) as [|a l] eqn:E; simpl.
  - destruct (is_ws x); reflexivity.
  - rewrite rev_app_distr. simpl.
    destruct (rev l ++ [a]) eqn:E2; [now destruct (rev l)|reflexivity].
Qed.

Lemma find_last_not_of_lt (set s : str) (i : nat) :
  find_last_not_of set s = Some i -> (i < List.length s)%nat.
Proof.
  revert i; induction s as [|x r IH]; simpl; intros i H; [discriminate|].
  destruct (find_last_not_of set r) as [j|].
  - injection H as <-. specialize (IH j eq_refl). lia.
  - destruct (mem x set); [discriminate|]. injection H as <-. lia.
Qed.

Lemma erase_trailing_ws (s : str) :
  erase_from (npos_succ (find_last_not_of WS s)) s = drop_trailing_ws s.
Proof.
  unfold erase_from.
  induction s as [|x r IH]; [reflexivity|].
  rewrite drop_trailing_ws_cons, <- IH. cbn [find_last_not_of].
  destruct (find_last_not_of WS r) as [j|] eqn:E; cbn [npos_succ firstn].
  - pose proof (find_last_not_of_lt _ _ _ E).
    destruct r; [simpl in *; lia | reflexivity].
  - unfold is_ws. destruct (mem x WS); reflexivity.
Qed.





Lemma filter_line_refines (raw : str) :
  filter_line raw = spec_command_record raw.
Proof.
  unfold filter_line, spec_command_record.
  destruct raw as [|x r]; [reflexivity|].
  rewrite find_char_before_comment, erase_trailing_ws.
  now destruct (drop_trailing_ws (before_comment (x :: r))).
Qed.



(** ** The end-to-end scenario of the specification

    Four source lines, two of them a blank and a comment; the device
    acknowledges twice.  Two records are written, the budget is whole
    again, and [main] returns 0. *)
Example end_to_end :
  exists st,
    main true 20 sample_file (sample_device (ok_script 2)) = Some (st, 0) /\
    tx (fd st) = lit "G1 X10 F100" ++ [NL] ++ lit "G1 Y10" ++ [NL] /\
    sent_lengths (history st) = [12; 7] /\
    credits (history st) = [12; 7] /\
    available st = RX_BUFFER_SIZE /\
    pending_lengths st = [] /\
    cout st = [OutSending (lit "G1 X10 F100") 12 127;
               OutSending (lit "G1 Y10") 7 115;
               OutWaiting 2 108;
               OutResponse (lit "ok" ++ [CR; NL]);
               OutFreed 12 120;
               OutWaiting 1 120;
               OutResponse (lit "ok" ++ [CR; NL]);
               OutFreed 7 127;
               OutCompleted].
Proof.
  eexists. split; [vm_compute; reflexivity|]. repeat split.
Qed.

(** ** Integer conversions inside the budget's range *)

Lemma to_size_t_small (z : Z) : 0 <= z < 2 ^ 64 -> to_size_t z = z.
Proof. intros H. unfold to_size_t. now apply Z.mod_small. Qed.

Lemma to_int_small (z : Z) : - 2 ^ 31 <= z < 2 ^ 31 -> to_int z = z.
Proof. intros H. unfold to_int. rewrite Z.mod_small; lia. Qed.

Lemma to_size_t_range (z : Z) : 0 <= to_size_t z < 2 ^ 64.
Proof. unfold to_size_t. apply Z.mod_pos_bound. lia. Qed.

Lemma wire_length_pos (l : str) : 1 <= wire_length l.
Proof. unfold wire_length. lia. Qed.

Lemma wire_length_send_line (l : str) :
  Z.of_nat (List.length (l ++ [NL])) = wire_length l.
Proof. unfold wire_length. rewrite length_app. simpl. lia. Qed.
Lemma budget_sub (a len : Z) :
  0 <= len <= a -> a <= RX_BUFFER_SIZE ->
  to_int (to_size_t (to_size_t a - len)) = a - len.
Proof.
  unfold RX_BUFFER_SIZE. intros H Ha.
  rewrite (to_size_t_small a) by lia.
  rewrite to_size_t_small by lia. apply to_int_small. lia.
Qed.

Lemma budget_add (a len : Z) :
  0 <= a -> 0 <= len -> a + len <= RX_BUFFER_SIZE ->
  to_int (to_size_t (to_size_t a + len)) = a + len.
Proof.
  unfold RX_BUFFER_SIZE. intros Ha Hl H.
  rewrite (to_size_t_small a) by lia.
  rewrite to_size_t_small by lia. apply to_int_small. lia.
Qed.

Lemma sum_lengths_app (q : list Z) (len : Z) :
  sum_lengths (q ++ [len]) = sum_lengths q + len.
Proof. induction q as [|x q IH]; simpl; lia. Qed.

Lemma sum_lengths_nonneg (q : list Z) :
  Forall (fun len => 0 <= len) q -> 0 <= sum_lengths q.
Proof. induction 1; simpl; lia. Qed.

Lemma skipn_length_app {A} (l m : list A) : skipn (List.length l) (l ++ m) = m.
Proof. induction l; simpl; auto. Qed.

Lemma skipn_length_self {A} (l : list A) : skipn (List.length l) l = [].
Proof. induction l; simpl; auto. Qed.

(** ** Printing on [std::cout] touches nothing else *)

Lemma print_if_gcode_file v st m : gcode_file (print_if v st m) = gcode_file st.
Proof. now destruct v. Qed.
Lemma print_if_fd v st m : fd (print_if v st m) = fd st.
Proof. now destruct v. Qed.
Lemma print_if_line v st m : line (print_if v st m) = line st.
Proof. now destruct v. Qed.
Lemma print_if_available v st m : available (print_if v st m) = available st.
Proof. now destruct v. Qed.
Lemma print_if_pending v st m :
  pending_lengths (print_if v st m) = pending_lengths st.
Proof. now destruct v. Qed.
Lemma print_if_return_code v st m :
  return_code (print_if v st m) = return_code st.
Proof. now destruct v. Qed.
Lemma print_if_cerr v st m : cerr (print_if v st m) = cerr st.
Proof. now destruct v. Qed.
Lemma print_if_history v st m : history (print_if v st m) = history st.
Proof. now destruct v. Qed.

Ltac proj_cbn :=
  cbn -[wire_length to_int to_size_t Z.of_nat is_ack trim_response
        readSerialLine getline filter_line seekg_cur sum_lengths] in *.

Ltac proj :=
  proj_cbn;
  repeat (progress
            (rewrite ?print_if_gcode_file, ?print_if_fd, ?print_if_line,
               ?print_if_available, ?print_if_pending, ?print_if_return_code,
               ?print_if_cerr, ?print_if_history in * );
          proj_cbn).

(** ** The buffer budget across one step *)

Definition issued_writes_fit (st st' : state) : Prop :=
  forall buf ret,
    In (EvWrite buf ret) (skipn (List.length (history st)) (history st')) ->
    sum_lengths (pending_lengths st) + Z.of_nat (List.length buf)
    <= RX_BUFFER_SIZE.

Lemma fill_iter_budget (verbose : bool) (st : state) :
  budget_ok st ->
  budget_ok (snd (fill_iter verbose st)) /\
  budget_change st (snd (fill_iter verbose st)) /\
  issued_writes_fit st (snd (fill_iter verbose st)).
Proof.
  intros (Hpos & Hsum & Hall).
  assert (Hidle : forall st', available st' = available st ->
            pending_lengths st' = pending_lengths st ->
            history st' = history st ->
            budget_ok st' /\ budget_change st st' /\ issued_writes_fit st st').
  { intros st' Ha Hp Hh. split; [|split].
    - unfold budget_ok. rewrite Ha, Hp. auto.
    - apply budget_same; auto; rewrite Hh, skipn_length_self; intros ? [].
    - intros buf ret. rewrite Hh, skipn_length_self. intros []. }
  unfold fill_iter.
  destruct (available st >? 0) eqn:Havail; [|now apply Hidle].
  destruct (getline (gcode_file st) (line st)) as [[f1 raw] ok].
  destruct ok; [|now apply Hidle].
  destruct (filter_line raw) as [l|]; [|now apply Hidle].
  destruct (wire_length l >? to_size_t (available st)) eqn:Hfit;
    [now apply Hidle|].
  pose proof (wire_length_pos l) as Hlen.
  pose proof (sum_lengths_nonneg _ Hall) as Hq.
  assert (Ha : available st <= RX_BUFFER_SIZE) by lia.
  rewrite to_size_t_small in Hfit by (unfold RX_BUFFER_SIZE in Ha; lia).
  rewrite Z.gtb_ltb in Hfit. apply Z.ltb_ge in Hfit.
  unfold dev_write.
  destruct (negb _) eqn:Hw; proj.
  - split; [|split].
    + unfold budget_ok. proj. auto.
    + apply budget_same; proj; auto; rewrite skipn_length_app;
        intros len [H|[]]; discriminate.
    + intros buf ret. proj. rewrite skipn_length_app.
      intros [H|[]]. injection H as <- <-.
      rewrite wire_length_send_line. lia.
  - apply negb_false_iff, Z.eqb_eq in Hw.
    rewrite wire_length_send_line in Hw.
    split; [|split].
    + unfold budget_ok. proj. rewrite budget_sub by lia.
      rewrite sum_lengths_app. repeat split; try lia.
      apply Forall_app. split; auto. constructor; [lia|constructor].
    + apply budget_debit with (buf := l ++ [NL]) (len := wire_length l); proj.
      * rewrite <- app_assoc. simpl. now rewrite wire_length_send_line, Hw.
      * apply wire_length_send_line.
      * apply budget_sub; lia.
      * reflexivity.
    + intros buf ret. proj. rewrite <- app_assoc, skipn_length_app.
      intros [H|[H|[]]]; [|discriminate]. injection H as <- <-.
      rewrite wire_length_send_line. lia.
Qed.

Lemma ack_phase_budget (verbose : bool) (st : state) :
  budget_ok st ->
  budget_ok (snd (ack_phase verbose st)) /\
  budget_change st (snd (ack_phase verbose st)) /\
  issued_writes_fit st (snd (ack_phase verbose st)).
Proof.
  intros (Hpos & Hsum & Hall).
  assert (Hidle : forall st' evs, available st' = available st ->
            pending_lengths st' = pending_lengths st ->
            history st' = history st ++ evs ->
            (forall e, In e evs -> exists r, e = EvRead r) ->
            budget_ok st' /\ budget_change st st' /\ issued_writes_fit st st').
  { intros st' evs Ha Hp Hh Hev. split; [|split].
    - unfold budget_ok. rewrite Ha, Hp. auto.
    - apply budget_same; auto; rewrite Hh, skipn_length_app;
        intros len Hin; destruct (Hev _ Hin); discriminate.
    - intros buf ret. rewrite Hh, skipn_length_app.
      intros Hin; destruct (Hev _ Hin); discriminate. }
  unfold ack_phase.
  destruct (pending_lengths st) as [|len rest] eqn:Hq.
  { apply (Hidle st []); auto using app_nil_r. intros ? []. }
  destruct (readSerialLine _ _) as [[[response rx'] perrs]|] eqn:Hrd; proj.
  2:{ apply (Hidle _ []); proj; auto using app_nil_r. intros ? []. }
  destruct (is_ack response) eqn:Hack; proj.
  2:{ apply (Hidle _ [EvRead response]); proj; auto.
      intros e [<-|[]]. eauto. }
  rewrite Hq.
  inversion Hall as [|? ? Hlen Hrest]; subst.
  change (available st + (len + sum_lengths rest) = RX_BUFFER_SIZE) in Hsum.
  pose proof (sum_lengths_nonneg _ Hrest) as Hr.
  assert (Hadd : to_int (to_size_t (to_size_t (available st) + len))
                 = available st + len) by (apply budget_add; lia).
  destruct (negb _); cbn [snd];
    (split; [unfold budget_ok; proj; rewrite Hadd; repeat split; (lia || auto)
            |split]).
  1,3: apply budget_credit with (response := response) (len := len); proj;
       auto; now rewrite <- app_assoc.
  all: intros buf ret; proj; rewrite <- app_assoc, skipn_length_app;
       intros [H|[H|[]]]; discriminate.
Qed.

Lemma step_budget (verbose : bool) (c : config) :
  budget_ok (snd c) ->
  budget_ok (snd (step verbose c)) /\
  budget_change (snd c) (snd (step verbose c)) /\
  issued_writes_fit (snd c) (snd (step verbose c)).
Proof.
  destruct c as [p st]. unfold step. cbn [fst snd].
  destruct p; intros H.
  - now apply fill_iter_budget.
  - now apply ack_phase_budget.
  - split; [exact H|]. split.
    + apply budget_same; auto; rewrite skipn_length_self; intros ? [].
    + intros buf ret. rewrite skipn_length_self. intros [].
  - split; [exact H|]. split.
    + apply budget_same; auto; rewrite skipn_length_self; intros ? [].
    + intros buf ret. rewrite skipn_length_self. intros [].
Qed.

Lemma reachable_budget_ok (verbose : bool) (f : ifstream) (d : serial)
      (c : config) :
  reachable verbose f d c -> budget_ok (snd c).
Proof.
  induction 1 as [|c _ IH].
  - unfold budget_ok. simpl. repeat split; try constructor.
    unfold RX_BUFFER_SIZE. lia.
  - now apply step_budget.
Qed.

(** C1. In every state the streaming loop can reach, [available] plus the
    sum of the pending lengths is [RX_BUFFER_SIZE] (127) and [available]
    is not negative; every [write] the next step issues fits into what the
    backlog leaves of the 127 bytes; and the next step changes [available]
    either not at all, or down by the length of a line whose [write]
    returned that length (pushed on the backlog), or up by the backlog head
    it pops on a response classified as acknowledgment. *)
Theorem budget_conservation (verbose : bool) (f : ifstream) (d : serial)
        (c : config) :
  reachable verbose f d c ->
  available (snd c) + sum_lengths (pending_lengths (snd c)) = RX_BUFFER_SIZE /\
  0 <= available (snd c) /\
  issued_writes_fit (snd c) (snd (step verbose c)) /\
  budget_change (snd c) (snd (step verbose c)).
Proof.
  intros Hr. pose proof (reachable_budget_ok _ _ _ _ Hr) as Hb.
  destruct (step_budget verbose c Hb) as (_ & Hch & Hfit).
  destruct Hb as (Hpos & Hsum & _). auto.
Qed.

Lemma budget_conservation_witness :
  let c := step true (PFill, init_state sample_file (sample_device (ok_script 2))) in
  reachable true sample_file (sample_device (ok_script 2)) c /\
  available (snd c) = 115 /\
  pending_lengths (snd c) = [12] /\
  available (snd c) + sum_lengths (pending_lengths (snd c)) = RX_BUFFER_SIZE /\
  0 <= available (snd c) /\
  issued_writes_fit (snd c) (snd (step true c)) /\
  budget_change (snd c) (snd (step true c)).
Proof.
  intros c.
  assert (Hr : reachable true sample_file (sample_device (ok_script 2)) c)
    by (apply reach_step, reach_init).
  split; [exact Hr|].
  split; [vm_compute; reflexivity|].
  split; [vm_compute; reflexivity|].
  exact (budget_conservation true sample_file (sample_device (ok_script 2)) c Hr).
Defined.

(** ** What one step does *)

Lemma firstn_length_all {A} (l : list A) :
  firstn (Z.to_nat (Z.of_nat (List.length l))) l = l.
Proof. rewrite Nat2Z.id. apply firstn_all. Qed.

Lemma fill_iter_effect (verbose : bool) (st : state) :
  step_effect PFill st (fst (fill_iter verbose st)) (snd (fill_iter verbose st)).
Proof.
  unfold fill_iter.
  destruct (available st >? 0); [|now (apply eff_none; simpl; auto)].
  destruct (getline (gcode_file st) (line st)) as [[f1 raw] ok].
  destruct ok; [|now (apply eff_none; simpl; auto)].
  destruct (filter_line raw) as [l|]; [|now (apply eff_none; simpl; auto)].
  destruct (wire_length l >? to_size_t (available st)); [now (apply eff_none; simpl; auto)|].
  unfold dev_write.
  destruct (negb _) eqn:Hw; proj.
  - apply negb_true_iff, Z.eqb_neq in Hw.
    eapply eff_write_failed; proj; eauto.
  - apply negb_false_iff, Z.eqb_eq in Hw.
    eapply eff_sent with (buf := l ++ [NL]) (len := wire_length l); proj;
      eauto using wire_length_send_line.
    + rewrite <- app_assoc. simpl. now rewrite Hw, wire_length_send_line.
    + now rewrite Hw, firstn_length_all.
Qed.

Lemma ack_phase_effect (verbose : bool) (st : state) :
  step_effect PAck st (fst (ack_phase verbose st)) (snd (ack_phase verbose st)).
Proof.
  unfold ack_phase.
  destruct (pending_lengths st) as [|len rest] eqn:Hq; [now (apply eff_none; simpl; auto)|].
  destruct (readSerialLine _ _) as [[[response rx'] perrs]|] eqn:Hrd; proj.
  2:{ apply eff_none; proj; simpl; auto. }
  destruct (is_ack response) eqn:Hack; proj.
  - rewrite Hq. proj.
    replace (negb (return_code st =? 0))
      with (if return_code st =? 0 then false else true)
      by now destruct (return_code st =? 0).
    destruct (return_code st =? 0) eqn:Hrc; proj;
      eapply eff_ack with (r := response) (len := len); proj; eauto;
      try (now rewrite Hrc); now rewrite <- app_assoc.
  - eapply eff_error with (r := response); proj; eauto.
    rewrite Hrd. now rewrite <- app_assoc.
Qed.

Lemma step_effects (verbose : bool) (c : config) :
  step_effect (fst c) (snd c) (fst (step verbose c)) (snd (step verbose c)).
Proof.
  destruct c as [p st]. unfold step. cbn [fst snd].
  destruct p.
  - apply fill_iter_effect.
  - apply ack_phase_effect.
  - now (apply eff_none; simpl; auto).
  - now (apply eff_none; simpl; auto).
Qed.

(** ** Histories *)

Lemma sent_lengths_app (h1 h2 : list event) :
  sent_lengths (h1 ++ h2) = sent_lengths h1 ++ sent_lengths h2.
Proof.
  induction h1 as [|e h1 IH]; simpl; [reflexivity|].
  destruct e; simpl; now rewrite IH.
Qed.

Lemma credits_app (h1 h2 : list event) :
  credits (h1 ++ h2) = credits h1 ++ credits h2.
Proof.
  induction h1 as [|e h1 IH]; simpl; [reflexivity|].
  destruct e; simpl; now rewrite IH.
Qed.

Lemma responses_app (h1 h2 : list event) :
  responses (h1 ++ h2) = responses h1 ++ responses h2.
Proof.
  induction h1 as [|e h1 IH]; simpl; [reflexivity|].
  destruct e; simpl; now rewrite IH.
Qed.

Lemma writes_app (h1 h2 : list event) :
  writes (h1 ++ h2) = writes h1 ++ writes h2.
Proof.
  induction h1 as [|e h1 IH]; simpl; [reflexivity|].
  destruct e; simpl; now rewrite IH.
Qed.

(** ** First in, first out *)

Lemma step_fifo (verbose : bool) (c : config) :
  sent_lengths (history (snd c))
  = credits (history (snd c)) ++ pending_lengths (snd c) ->
  sent_lengths (history (snd (step verbose c)))
  = credits (history (snd (step verbose c)))
    ++ pending_lengths (snd (step verbose c)).
Proof.
  intros H.
  destruct (step_effects verbose c)
    as [Hh Hq _ _ _ _ _
       |buf r _ _ Hh _ Hq _ _ _ _
       |buf len _ _ Hh _ Hq _ _ _ _
       |r len _ _ Hh _ Hq _ _ _
       |r _ _ Hh _ Hq _ _ _ _ _];
    rewrite Hh; rewrite ?sent_lengths_app, ?credits_app; simpl;
    rewrite ?app_nil_r, H.
  - now rewrite Hq.
  - now rewrite Hq.
  - now rewrite Hq, app_assoc.
  - rewrite Hq, <- app_assoc. reflexivity.
  - now rewrite Hq.
Qed.

Lemma reachable_fifo (verbose : bool) (f : ifstream) (d : serial) (c : config) :
  reachable verbose f d c ->
  sent_lengths (history (snd c))
  = credits (history (snd c)) ++ pending_lengths (snd c).
Proof.
  induction 1 as [|c _ IH]; [reflexivity|]. now apply step_fifo.
Qed.

(** C6. Acknowledgments resolve pending commands in the order these were
    sent: in every reachable state the lengths sent so far are the lengths
    credited so far followed by the backlog; so when the lengths sent begin
    with [L1], [L2], [L3] and three credits were given, these are [L1],
    [L2], [L3] in that order; and a step that credits on a response [r]
    credits the oldest pending length, whatever the text of [r]. *)
Theorem fifo_acknowledgment (verbose : bool) (f : ifstream) (d : serial)
        (c : config) :
  reachable verbose f d c ->
  sent_lengths (history (snd c))
  = credits (history (snd c)) ++ pending_lengths (snd c) /\
  (forall L1 L2 L3 more,
      sent_lengths (history (snd c)) = L1 :: L2 :: L3 :: more ->
      List.length (credits (history (snd c))) = 3%nat ->
      credits (history (snd c)) = [L1; L2; L3]) /\
  (forall r len,
      history (snd (step verbose c))
      = history (snd c) ++ [EvRead r; EvCredit len] ->
      exists rest,
        pending_lengths (snd c) = len :: rest /\
        pending_lengths (snd (step verbose c)) = rest /\
        available (snd (step verbose c)) = available (snd c) + len).
Proof.
  intros Hr. pose proof (reachable_fifo _ _ _ _ Hr) as Hf.
  split; [exact Hf|]. split.
  - intros L1 L2 L3 more Hs Hn. rewrite Hs in Hf.
    destruct (credits (history (snd c))) as [|a [|b [|c3 [|? ?]]]];
      try discriminate.
    simpl in Hf. now injection Hf as -> -> ->.
  - intros r len Hh.
    pose proof (reachable_budget_ok _ _ _ _ Hr) as Hb.
    destruct (step_budget verbose c Hb) as (_ & Hch & _).
    destruct Hch as [_ _ _ Hnc|buf l Hh' _ _ _|r' l Hh' _ Hq Ha].
    + exfalso. apply (Hnc len). rewrite Hh, skipn_length_app. simpl. auto.
    + rewrite Hh in Hh'. apply app_inv_head in Hh'. discriminate.
    + rewrite Hh in Hh'. apply app_inv_head in Hh'. injection Hh' as -> ->.
      eauto.
Qed.

Lemma reachable_run_loop (verbose : bool) (f : ifstream) (d : serial)
      (fuel : nat) (c : config) :
  reachable verbose f d c -> reachable verbose f d (run_loop verbose fuel c).
Proof.
  revert c; induction fuel as [|k IH]; intros c H; simpl; [exact H|].
  destruct (fst c); auto using reach_step.
Qed.

Lemma fifo_acknowledgment_witness :
  let d := sample_device (ok_script 3) in
  let c := run_loop false 9 (PFill, init_state three_commands d) in
  reachable false three_commands d c /\
  sent_lengths (history (snd c)) = [3; 6; 10] /\
  credits (history (snd c)) = [3; 6; 10].
Proof.
  intros d c.
  assert (Hr : reachable false three_commands d c)
    by apply reachable_run_loop, reach_init.
  split; [exact Hr|].
  split; [vm_compute; reflexivity|].
  destruct (fifo_acknowledgment false three_commands d c Hr) as (_ & H3 & _).
  apply (H3 3 6 10 []); vm_compute; reflexivity.
Defined.

(** ** Halting on a response that is not an acknowledgment *)

Lemma step_done (verbose : bool) (c : config) :
  fst c = PDone -> step verbose c = c.
Proof. intros H. unfold step. now rewrite H. Qed.

Lemma step_halt_ok (verbose : bool) (c : config) :
  halt_ok c -> halt_ok (step verbose c).
Proof.
  intros H. pose proof H as (Hn & [Hacks|(Hd & _)]);
    [|now rewrite step_done].
  clear H. unfold halt_ok.
  destruct (step_effects verbose c)
    as [Hh _ _ _ _ _ _
       |buf r _ _ Hh _ _ _ _ _ _
       |buf len _ _ Hh _ _ _ _ _ _
       |r len _ _ Hh Hr _ _ _ _
       |r _ Hp Hh Hr _ _ _ _ He _];
    rewrite Hh; rewrite ?credits_app, ?responses_app; simpl;
    rewrite ?app_nil_r.
  - auto.
  - auto.
  - auto.
  - rewrite filter_app, !length_app, forallb_app. simpl.
    rewrite Hr. simpl. rewrite Hn, Hacks. auto.
  - rewrite filter_app, length_app. simpl. rewrite Hr. simpl.
    split; [lia|]. right. split; [exact Hp|].
    exists (history (snd c)), r.
    eexists. repeat split; auto.
    rewrite He, app_assoc. reflexivity.
Qed.

Lemma reachable_halt_ok (verbose : bool) (f : ifstream) (d : serial)
      (c : config) :
  reachable verbose f d c -> halt_ok c.
Proof.
  induction 1 as [|c _ IH]; [|now apply step_halt_ok].
  unfold halt_ok. simpl. auto.
Qed.

Lemma forallb_responses_mid (h0 h1 : list event) (r : str) :
  forallb is_ack (responses (h0 ++ EvRead r :: h1)) = true -> is_ack r = true.
Proof.
  rewrite responses_app, forallb_app. simpl.
  intros H. apply andb_prop in H as [_ H]. now apply andb_prop in H as [H _].
Qed.

Lemma halted_response_last (c : config) (h0 h1 : list event) (r : str) :
  halt_ok c ->
  history (snd c) = h0 ++ EvRead r :: h1 ->
  is_ack r = false ->
  h1 = [] /\ fst c = PDone /\
  forallb is_ack (responses h0) = true /\
  exists e0, cerr (snd c) = e0 ++ [ErrGrbl (trim_response r)].
Proof.
  intros (_ & [Hacks|(Hd & h0' & r' & e0 & Hh & Hr' & Hacks & He)]) Heq Hr.
  - rewrite Heq in Hacks. apply forallb_responses_mid in Hacks. congruence.
  - rewrite Heq in Hh.
    destruct h1 as [|e h1] using rev_ind.
    + apply app_inj_tail in Hh as [-> Hh]. injection Hh as ->. eauto.
    + clear IHh1. exfalso.
      change (h0 ++ EvRead r :: h1 ++ [e])
        with (h0 ++ (EvRead r :: h1) ++ [e]) in Hh.
      rewrite app_assoc in Hh. apply app_inj_tail in Hh as [<- _].
      apply forallb_responses_mid in Hacks. congruence.
Qed.

(** C2 (amended). A response that, trimmed and lower-cased, does not
    contain ["ok"] ends the loop at once: in every reachable state such a
    response is the last event of the history, so nothing is written and
    nothing is read after it, control is past the loop for good, and the
    trimmed text was reported on [std::cerr].  When the second response is
    the first one that is not an acknowledgment, exactly one length has
    been credited, that of the first command sent. *)
Theorem device_error_halts (verbose : bool) (f : ifstream) (d : serial)
        (c : config) :
  reachable verbose f d c ->
  (forall h0 r h1,
      history (snd c) = h0 ++ EvRead r :: h1 ->
      is_ack r = false ->
      h1 = [] /\ fst c = PDone /\ step verbose c = c /\
      exists e0, cerr (snd c) = e0 ++ [ErrGrbl (trim_response r)]) /\
  (forall r1 r2 more,
      responses (history (snd c)) = r1 :: r2 :: more ->
      is_ack r1 = true ->
      is_ack r2 = false ->
      more = [] /\ fst c = PDone /\
      (exists h0, history (snd c) = h0 ++ [EvRead r2]) /\
      exists L1 rest,
        sent_lengths (history (snd c)) = L1 :: rest /\
        credits (history (snd c)) = [L1]).
Proof.
  intros Hr. pose proof (reachable_halt_ok _ _ _ _ Hr) as Hh. split.
  - intros h0 r h1 Heq Hn.
    destruct (halted_response_last c h0 h1 r Hh Heq Hn) as (-> & Hd & _ & He).
    auto using step_done.
  - intros r1 r2 more Hrs H1 H2.
    pose proof (reachable_fifo _ _ _ _ Hr) as Hf.
    destruct Hh as (Hn & [Hacks|(Hd & h0 & r & e0 & Heq & Hr2 & Hacks & _)]).
    { rewrite Hrs in Hacks. simpl in Hacks. rewrite H1, H2 in Hacks.
      discriminate. }
    rewrite Heq, responses_app in Hrs. simpl in Hrs.
    assert (Hshape : responses h0 = [r1] /\ r = r2 /\ more = []).
    { destruct (responses h0) as [|a [|b t]]; simpl in Hrs.
      - discriminate.
      - injection Hrs as -> -> <-. auto.
      - injection Hrs as -> -> _. simpl in Hacks. rewrite H1, H2 in Hacks.
        discriminate. }
    destruct Hshape as (Hr0 & -> & ->).
    rewrite Heq, responses_app, Hr0 in Hn. simpl in Hn. rewrite H1, H2 in Hn.
    simpl in Hn.
    split; [reflexivity|]. split; [exact Hd|]. split; [eauto|].
    rewrite <- Heq in Hn.
    destruct (credits (history (snd c))) as [|L1 [|? ?]]; try discriminate.
    exists L1, (pending_lengths (snd c)). auto.
Qed.

Lemma device_error_halts_witness :
  let c := run_loop false 20 (PFill, init_state five_commands error9_device) in
  reachable false five_commands error9_device c /\
  fst c = PDone /\
  credits (history (snd c)) = [6].
Proof.
  intros c.
  assert (Hr : reachable false five_commands error9_device c)
    by apply reachable_run_loop, reach_init.
  split; [exact Hr|].
  destruct (device_error_halts false five_commands error9_device c Hr)
    as (_ & H2).
  destruct (H2 (lit "ok" ++ [NL]) (lit "error:9" ++ [NL]) [])
    as (_ & Hd & _ & L1 & rest & Hs & Hc); try (vm_compute; reflexivity).
  split; [exact Hd|].
  rewrite Hc. f_equal.
  assert (Hs' : sent_lengths (history (snd c)) = [6; 6; 6; 6; 6])
    by (vm_compute; reflexivity).
  rewrite Hs' in Hs. now injection Hs as <- _.
Defined.

(** C2, as stated, fails: with five short commands and the responses
    ["ok"], ["error:9"], all five commands have been written before the
    error is read, and the program returns 0. *)
Lemma device_error_counterexample :
  is_ack (lit "error:9" ++ [NL]) = false /\
  exists st,
    main false 20 five_commands error9_device = Some (st, 0) /\
    tx (fd st) = content five_commands /\
    responses (history st) = [lit "ok" ++ [NL]; lit "error:9" ++ [NL]] /\
    credits (history st) = [6].
Proof.
  split; [vm_compute; reflexivity|].
  eexists. split; [vm_compute; reflexivity|].
  repeat split.
Qed.

(** ** A write that fails *)

Lemma after_failed_write_app (h evs : list event) :
  after_failed_write (h ++ evs) =
  match after_failed_write h with
  | Some h1 => Some (h1 ++ evs)
  | None => after_failed_write evs
  end.
Proof.
  induction h as [|e h IH]; simpl; [reflexivity|].
  destruct e; auto.
  destruct (ret =? Z.of_nat (List.length buf)); auto.
Qed.

Lemma step_write_failure_ok (verbose : bool) (c : config) :
  write_failure_ok c -> write_failure_ok (step verbose c).
Proof.
  unfold write_failure_ok. intros H.
  destruct (step_effects verbose c)
    as [Hh _ _ _ Hrc _ Hp
       |buf r Hp Hp' Hh Hr _ _ _ _ Hrc
       |buf len Hp _ Hh Hl _ _ _ _ Hrc
       |r len Hp Hp' Hh _ _ _ _ Hrc
       |r Hp Hp' Hh _ _ _ _ _ _ Hrc];
    rewrite Hh; rewrite ?after_failed_write_app;
    destruct (after_failed_write (history (snd c))) as [h1|] eqn:Haf.
  - destruct H as (H1 & Hw & Hpc). rewrite Hrc. repeat split; auto.
    unfold idle_next in Hp.
    destruct Hpc as [(Hc & ->)|(Hc & Hn)].
    + rewrite Hc in Hp. right. auto.
    + right. destruct Hc as [Hc|Hc]; rewrite Hc in Hp; auto.
  - now rewrite Hrc.
  - destruct H as (_ & _ & [(Hc & _)|([Hc|Hc] & _)]); congruence.
  - simpl. apply Z.eqb_neq in Hr. rewrite Hr. auto.
  - destruct H as (_ & _ & [(Hc & _)|([Hc|Hc] & _)]); congruence.
  - simpl. subst len. rewrite Z.eqb_refl. now rewrite Hrc.
  - destruct H as (H1 & Hw & [(Hc & ->)|([Hc|Hc] & _)]); try congruence.
    rewrite Hrc, H1 in *. simpl in *. repeat split; auto.
  - simpl. now rewrite Hrc.
  - destruct H as (H1 & Hw & [(Hc & ->)|([Hc|Hc] & _)]); try congruence.
    rewrite Hrc. simpl. repeat split; auto.
  - simpl. now rewrite Hrc.
Qed.

Lemma reachable_write_failure_ok (verbose : bool) (f : ifstream) (d : serial)
      (c : config) :
  reachable verbose f d c -> write_failure_ok c.
Proof.
  induction 1 as [|c _ IH]; [reflexivity|]. now apply step_write_failure_ok.
Qed.




Lemma run_loop_blocked (verbose : bool) (fuel : nat) (c : config) :
  fst c = PBlocked -> run_loop verbose fuel c = c.
Proof. intros H. destruct fuel; simpl; [reflexivity|now rewrite H]. Qed.

Lemma run_loop_add (verbose : bool) (a b : nat) (c : config) :
  run_loop verbose (a + b) c = run_loop verbose b (run_loop verbose a c).
Proof.
  revert c; induction a as [|a IH]; intros c; [reflexivity|].
  cbn [Nat.add run_loop].
  destruct (fst c) eqn:Hp; auto.
  - destruct b; simpl; [reflexivity|now rewrite Hp].
  - now rewrite run_loop_blocked.
Qed.


(** ** The end of the connection during a read *)

Lemma readSerialLine_bytes (s : str) (rest : list rx_event) (line0 : str) :
  no_newline s = true ->
  readSerialLine (rx_bytes s ++ rest) line0 = readSerialLine rest (line0 ++ s).
Proof.
  revert line0; induction s as [|ch s IH]; intros line0 H; simpl.
  - now rewrite app_nil_r.
  - simpl in H. apply andb_prop in H as [Hc Hs].
    apply negb_true_iff in Hc. rewrite Hc, IH by exact Hs.
    now rewrite <- app_assoc.
Qed.

Lemma readSerialLine_end (s : str) (e : rx_event) (rest : list rx_event) :
  no_newline s = true ->
  sel_ret e <> -1 -> sel_ret e <> 0 -> fd_isset e = true -> rd_ret e <= 0 ->
  readSerialLine (rx_bytes s ++ e :: rest) []
  = Some (s, rest, if rd_ret e =? 0 then [] else [PerrorRead]).
Proof.
  intros Hs H1 H0 Hset Hrd.
  rewrite readSerialLine_bytes by exact Hs. simpl.
  apply Z.eqb_neq in H1, H0. rewrite H1, H0, Hset.
  destruct (rd_ret e >? 0) eqn:Hpos; [rewrite Z.gtb_ltb in Hpos; lia|].
  now destruct (rd_ret e =? 0).
Qed.

(** C5 (amended). A [read] that returns 0 or a negative value while the
    loop waits for an acknowledgment ends [readSerialLine], which returns
    the bytes received so far (after [perror] on a negative value).  The
    loop classifies that text like any response: without ["ok"] in it the
    loop is left with nothing more written or read and the text is
    reported as a GRBL error; with ["ok"] in it the oldest pending length
    is credited. *)
Theorem read_end_is_a_response (verbose : bool) (st : state) (s : str)
        (e : rx_event) (rest : list rx_event) :
  no_newline s = true ->
  sel_ret e <> -1 -> sel_ret e <> 0 -> fd_isset e = true -> rd_ret e <= 0 ->
  rx (fd st) = rx_bytes s ++ e :: rest ->
  pending_lengths st <> [] ->
  let perrs := if rd_ret e =? 0 then [] else [PerrorRead] in
  let c' := ack_phase verbose st in
  readSerialLine (rx (fd st)) [] = Some (s, rest, perrs) /\
  rx (fd (snd c')) = rest /\
  nwrites (fd (snd c')) = nwrites (fd st) /\
  tx (fd (snd c')) = tx (fd st) /\
  (is_ack s = false ->
   fst c' = PDone /\
   history (snd c') = history st ++ [EvRead s] /\
   cerr (snd c') = cerr st ++ perrs ++ [ErrGrbl (trim_response s)] /\
   available (snd c') = available st /\
   pending_lengths (snd c') = pending_lengths st) /\
  (is_ack s = true ->
   exists len,
     pending_lengths st = len :: pending_lengths (snd c') /\
     history (snd c') = history st ++ [EvRead s; EvCredit len]).
Proof.
  intros Hs H1 H0 Hset Hrd Hrx Hq perrs c'.
  assert (Hread : readSerialLine (rx (fd st)) [] = Some (s, rest, perrs))
    by (rewrite Hrx; now apply readSerialLine_end).
  split; [exact Hread|].
  subst c'. unfold ack_phase.
  destruct (pending_lengths st) as [|len q] eqn:Eq; [congruence|].
  rewrite print_if_fd, Hread.
  destruct (is_ack s) eqn:Hack; proj.
  - rewrite Eq. destruct (negb _); proj;
      (split; [reflexivity|]); (split; [reflexivity|]);
      (split; [reflexivity|]); (split; [discriminate|]);
      intros _; exists len; now rewrite <- app_assoc.
  - split; [reflexivity|]. split; [reflexivity|]. split; [reflexivity|].
    split; [|discriminate]. intros _.
    repeat split; auto; rewrite <- ?app_assoc; auto.
Qed.

Lemma read_end_is_a_response_witness :
  let st := snd (run_loop false 2 (PFill, init_state one_command closed_device)) in
  fst (ack_phase false st) = PDone /\
  history (snd (ack_phase false st)) = history st ++ [EvRead []].
Proof.
  intros st.
  destruct (read_end_is_a_response false st [] (mk_rx 1 true 0 zero) [])
    as (_ & _ & _ & _ & H & _);
    try (vm_compute; congruence).
  destruct H as (Hp & Hh & _); [reflexivity|].
  split; assumption.
Defined.

(** C5, as stated, fails: when the connection is closed, or the read
    fails, at the first byte of the response, the program reports a GRBL
    error with an empty text, as it does for a device error, and
    returns 0. *)
Lemma read_end_counterexample :
  exists st1 st2,
    main false 10 one_command closed_device = Some (st1, 0) /\
    cerr st1 = [ErrGrbl []] /\
    main false 10 one_command failing_device = Some (st2, 0) /\
    cerr st2 = [PerrorRead; ErrGrbl []].
Proof.
  eexists. eexists.
  split; [vm_compute; reflexivity|].
  split; [reflexivity|].
  split; [vm_compute; reflexivity|].
  reflexivity.
Qed.

(** ** A command that does not fit *)

Lemma hold_back_step (verbose : bool) (st : state) (f1 : ifstream)
      (raw l : str) :
  (available st >? 0) = true ->
  getline (gcode_file st) (line st) = (f1, raw, true) ->
  filter_line raw = Some l ->
  (wire_length l >? to_size_t (available st)) = true ->
  fill_iter verbose st
  = (PAck, set_file st (seekg_cur f1 (- (Z.of_nat (List.length l) + 1))) l).
Proof.
  intros Ha Hg Hf Hfit. unfold fill_iter. now rewrite Ha, Hg, Hf, Hfit.
Qed.

(** C3 (code defect).  The loop has no test for a command that can never
    fit.  A first line of 130 characters is held back like a line that has
    to wait for room (line 251), the backlog is empty, so the test of line
    273 leaves the loop: [main] returns 0, nothing was written, nothing was
    reported, and the command after the long one was never read.  When the
    long line carries a comment and a command is pending, the seek of line
    253 goes back by the length of the filtered line only, the next read
    starts seven characters into the long command, and its last 123
    characters are written as a command of their own; [main] returns 0
    again. *)
Theorem oversize_command_dropped :
  (exists st,
      main false 10 oversize_file (sample_device []) = Some (st, 0) /\
      tx (fd st) = [] /\ history st = [] /\ cerr st = [] /\
      gpos (gcode_file st) = O) /\
  (exists st,
      main false 20
           (open_file (lit "G0" ++ [NL]
                       ++ repeat "X"%char 130 ++ lit " ; note" ++ [NL]
                       ++ lit "G1" ++ [NL]))
           (sample_device (ok_script 3))
      = Some (st, 0) /\
      tx (fd st) = lit "G0" ++ [NL] ++ repeat "X"%char 123 ++ [NL]
                   ++ lit "G1" ++ [NL] /\
      map snd (writes (history st)) = [3; 124; 3] /\
      cerr st = []).
Proof.
  split; eexists; (split; [vm_compute; reflexivity|]); repeat split.
Qed.

(** ** Reading lines and seeking back *)

Lemma find_char_lt (ch : ascii) (s : str) (i : nat) :
  find_char ch s = Some i -> (i < List.length s)%nat.
Proof.
  revert i; induction s as [|x r IH]; simpl; intros i H; [discriminate|].
  destruct (Ascii.eqb x ch); [injection H as <-; lia|].
  destruct (find_char ch r) as [j|]; [|discriminate].
  injection H as <-. specialize (IH j eq_refl). lia.
Qed.

Lemma find_char_nth (ch : ascii) (s : str) (i : nat) :
  find_char ch s = Some i -> nth_error s i = Some ch.
Proof.
  revert i; induction s as [|x r IH]; simpl; intros i H; [discriminate|].
  destruct (Ascii.eqb x ch) eqn:E.
  - injection H as <-. apply Ascii.eqb_eq in E. now subst.
  - destruct (find_char ch r) as [j|]; [|discriminate].
    injection H as <-. simpl. now apply IH.
Qed.

(** A successful [getline] that stopped at a newline. *)
Lemma getline_newline (f f1 : ifstream) (line0 raw : str) :
  getline f line0 = (f1, raw, true) ->
  eofbit f1 = false ->
  eofbit f = false /\ failbit f = false /\
  exists i,
    find_char NL (skipn (gpos f) (content f)) = Some i /\
    f1 = mk_ifstream (content f) (gpos f + i + 1) false false /\
    raw = firstn i (skipn (gpos f) (content f)) /\
    List.length raw = i.
Proof.
  unfold getline. intros H He.
  destruct (eofbit f) eqn:E1; [discriminate|].
  destruct (failbit f) eqn:E2; [discriminate|]. simpl in H.
  destruct (find_char NL (skipn (gpos f) (content f))) as [i|] eqn:Hfind.
  - injection H as <- <-. repeat split. exists i. repeat split.
    apply firstn_length_le. apply find_char_lt in Hfind. lia.
  - destruct (skipn (gpos f) (content f)); [discriminate|].
    injection H as <- _. discriminate.
Qed.

Lemma getline_line_irrelevant (f f1 : ifstream) (line0 line1 raw : str) :
  getline f line0 = (f1, raw, true) -> getline f line1 = (f1, raw, true).
Proof.
  unfold getline.
  destruct (eofbit f || failbit f); [discriminate|auto].
Qed.

(** A successful [getline] that stopped at the end of the file. *)
Lemma getline_eof (f f1 : ifstream) (line0 raw : str) :
  getline f line0 = (f1, raw, true) ->
  eofbit f1 = true ->
  eofbit f = false /\ failbit f = false /\
  raw = skipn (gpos f) (content f) /\
  f1 = mk_ifstream (content f) (gpos f + List.length raw) true false.
Proof.
  unfold getline. intros H He.
  destruct (eofbit f) eqn:E1; [discriminate|].
  destruct (failbit f) eqn:E2; [discriminate|]. simpl in H.
  destruct (find_char NL (skipn (gpos f) (content f))) as [i|] eqn:Hfind.
  - injection H as <- _. discriminate.
  - destruct (skipn (gpos f) (content f)) as [|x rest] eqn:Hs;
      [discriminate|].
    injection H as <- <-. repeat split.
Qed.

Lemma skipn_nth_error (A : Type) (l : list A) (n : nat) (x : A) :
  nth_error l n = Some x -> skipn n l = x :: skipn (S n) l.
Proof.
  revert n; induction l as [|y l IH]; intros [|n] H; try discriminate.
  - injection H as <-. reflexivity.
  - apply (IH n H).
Qed.

(** X19. Holding back a line that needs no filtering loses nothing.  A
    record that does not fit is not written: budget, backlog and
    connection stay as they are, the fill phase ends, and the file is
    sought back by the length of the filtered line plus one (line 253).
    When the filter left the raw line unchanged and the line ended in a
    newline, the file is exactly where it was before the line was read and
    the next read gives the same line.  When the line was the last of the
    file and had no newline, the seek lands on the newline that ended the
    line before it: the next read gives an empty line, which the loop
    skips, and the read after that gives the same line. *)
Theorem hold_back_rewinds (verbose : bool) (st : state) (f1 : ifstream)
        (raw l : str) :
  0 < available st <= RX_BUFFER_SIZE ->
  getline (gcode_file st) (line st) = (f1, raw, true) ->
  filter_line raw = Some l ->
  available st < wire_length l ->
  let c1 := fill_iter verbose st in
  fst c1 = PAck /\
  gcode_file (snd c1) = seekg_cur f1 (- wire_length l) /\
  line (snd c1) = l /\
  fd (snd c1) = fd st /\
  history (snd c1) = history st /\
  available (snd c1) = available st /\
  pending_lengths (snd c1) = pending_lengths st /\
  (eofbit f1 = false -> l = raw ->
   gcode_file (snd c1) = gcode_file st /\
   forall line1, getline (gcode_file (snd c1)) line1 = (f1, raw, true)) /\
  (eofbit f1 = true -> l = raw ->
   (0 < gpos (gcode_file st))%nat ->
   nth_error (content (gcode_file st)) (gpos (gcode_file st) - 1) = Some NL ->
   forall line1 line2,
   exists f0,
     getline (gcode_file (snd c1)) line1 = (f0, [], true) /\
     filter_line [] = None /\
     getline f0 line2 = (f1, raw, true)).
Proof.
  intros Ha Hg Hf Hbig c1.
  assert (Hstep : c1 = (PAck, set_file st (seekg_cur f1 (- wire_length l)) l)).
  { subst c1. apply hold_back_step with (raw := raw); auto.
    - rewrite Z.gtb_ltb. apply Z.ltb_lt. lia.
    - rewrite Z.gtb_ltb. apply Z.ltb_lt.
      rewrite to_size_t_small; unfold RX_BUFFER_SIZE in *; lia. }
  rewrite Hstep. cbn [fst snd]. proj. do 7 (split; [reflexivity|]).
  split.
  - intros He ->.
    destruct (getline_newline _ _ _ _ Hg He)
      as (E1 & E2 & i & _ & Hf1 & _ & Hlen).
    assert (Hseek : seekg_cur f1 (- wire_length raw) = gcode_file st).
    { unfold seekg_cur, wire_length. rewrite Hf1, Hlen. simpl.
      destruct (Z.of_nat (gpos (gcode_file st) + i + 1) + - (Z.of_nat i + 1)
                <? 0) eqn:Hneg; [apply Z.ltb_lt in Hneg; lia|].
      replace (Z.to_nat _) with (gpos (gcode_file st)) by lia.
      destruct (gcode_file st); simpl in *. now subst. }
    rewrite Hseek. split; [reflexivity|].
    intros line1. now apply getline_line_irrelevant with (line0 := line st).
  - intros He -> Hpos Hnl line1 line2.
    destruct (getline_eof _ _ _ _ Hg He) as (E1 & E2 & Hraw & Hf1).
    assert (Hseek : seekg_cur f1 (- wire_length raw)
                    = mk_ifstream (content (gcode_file st))
                                  (gpos (gcode_file st) - 1) false false).
    { unfold seekg_cur, wire_length. rewrite Hf1. cbn [failbit gpos content].
      destruct (Z.of_nat (gpos (gcode_file st) + List.length raw)
                + - (Z.of_nat (List.length raw) + 1) <? 0) eqn:Hneg;
        [apply Z.ltb_lt in Hneg; lia|].
      f_equal. lia. }
    rewrite Hseek.
    exists (gcode_file st). split; [|split; [reflexivity|]].
    + unfold getline. cbn [eofbit failbit orb gpos content].
      rewrite (skipn_nth_error _ _ _ _ Hnl).
      cbn [find_char]. replace (Ascii.eqb NL NL) with true by reflexivity.
      cbn [firstn]. do 2 f_equal.
      destruct (gcode_file st) as [ct gp eb fb]. cbn in *. subst eb fb.
      f_equal. lia.
    + now apply getline_line_irrelevant with (line0 := line st).
Qed.

Lemma hold_back_rewinds_witness :
  let st := snd (step false (PFill, init_state
                   (open_file (repeat "X"%char 100 ++ [NL]
                               ++ repeat "Y"%char 40 ++ [NL]))
                   (sample_device []))) in
  fst (fill_iter false st) = PAck /\
  history (snd (fill_iter false st)) = history st /\
  gcode_file (snd (fill_iter false st)) = gcode_file st.
Proof.
  intros st.
  destruct (hold_back_rewinds false st
              (mk_ifstream (content (gcode_file st)) 142 false false)
              (repeat "Y"%char 40) (repeat "Y"%char 40))
    as (Hp & _ & _ & _ & Hh & _ & _ & Hsame & _);
    [vm_compute; intuition congruence .. | ].
  split; [exact Hp|]. split; [exact Hh|].
  now destruct (Hsame eq_refl eq_refl).
Defined.

(** C4 (code defect).  The seek of line 253 goes back by the length of the
    filtered line, not by the length of the line read.  After a line of
    100 characters is sent, the next line (40 characters, then a comment
    of four) is held back as a record of 40 characters; the seek lands
    four characters into it, and when there is room again the record read
    and written has the last 36 of them.  [main] returns 0 and the device
    never receives the command of 40 characters. *)
Theorem hold_back_rereads_fragment :
  let d := sample_device (ok_script 3) in
  let c0 := (PFill, init_state commented_file d) in
  let held := run_loop false 2 c0 in
  let retried := run_loop false 4 c0 in
  fst held = PAck /\
  line (snd held) = repeat "Y"%char 40 /\
  gpos (gcode_file (snd held)) = 105%nat /\
  writes (history (snd held)) = [(repeat "X"%char 100 ++ [NL], 101)] /\
  line (snd retried) = repeat "Y"%char 36 /\
  writes (history (snd retried))
  = [(repeat "X"%char 100 ++ [NL], 101); (repeat "Y"%char 36 ++ [NL], 37)] /\
  exists st,
    main false 20 commented_file d = Some (st, 0) /\
    tx (fd st) = repeat "X"%char 100 ++ [NL] ++ repeat "Y"%char 36 ++ [NL]
                 ++ lit "G1" ++ [NL] /\
    cerr st = [].
Proof.
  do 6 (split; [vm_compute; reflexivity|]).
  eexists. split; [vm_compute; reflexivity|]. split; reflexivity.
Qed.

(** ** The verbose flag *)

Lemma low_print_if (v : bool) (st : state) (m : out_msg) :
  low (print_if v st m) = low st.
Proof. now destruct v. Qed.

Lemma fill_iter_low (v : bool) (st : state) :
  low_config (fill_iter v st) = low_config (fill_iter false (low st)).
Proof.
  destruct st as [gf d l a q rc co ce h].
  unfold fill_iter, low_config. cbn [available gcode_file line low].
  destruct (a >? 0); [|reflexivity].
  destruct (getline gf l) as [[f1 raw] ok].
  destruct ok; [|reflexivity].
  destruct (filter_line raw) as [l1|]; [|reflexivity].
  destruct (wire_length l1 >? to_size_t a); [reflexivity|].
  destruct v; cbn -[wire_length to_int to_size_t Z.of_nat];
    destruct (negb _); reflexivity.
Qed.

Lemma ack_phase_low (v : bool) (st : state) :
  low_config (ack_phase v st) = low_config (ack_phase false (low st)).
Proof.
  destruct st as [gf d l a q rc co ce h].
  unfold ack_phase, low_config. cbn [pending_lengths low].
  destruct q as [|len rest]; [reflexivity|].
  destruct v; cbn -[to_int to_size_t is_ack trim_response readSerialLine];
    destruct (readSerialLine (rx d) []) as [[[response rx'] perrs]|];
    try reflexivity;
    destruct (is_ack response); try reflexivity;
    cbn -[to_int to_size_t trim_response];
    destruct (negb (rc =? 0)); reflexivity.
Qed.

Lemma step_low (v : bool) (c : config) :
  low_config (step v c) = low_config (step false (low_config c)).
Proof.
  destruct c as [p st]. unfold step. cbn [fst snd low_config].
  destruct p; auto using fill_iter_low, ack_phase_low.
Qed.

Lemma step_low_eq (v1 v2 : bool) (c1 c2 : config) :
  low_config c1 = low_config c2 ->
  low_config (step v1 c1) = low_config (step v2 c2).
Proof.
  intros H. rewrite (step_low v1), (step_low v2). now rewrite H.
Qed.

Lemma run_loop_low (v1 v2 : bool) (fuel : nat) (c1 c2 : config) :
  low_config c1 = low_config c2 ->
  low_config (run_loop v1 fuel c1) = low_config (run_loop v2 fuel c2).
Proof.
  revert c1 c2; induction fuel as [|k IH]; intros c1 c2 H; [exact H|].
  assert (Hp : fst c1 = fst c2) by exact (f_equal fst H).
  cbn [run_loop]. rewrite <- Hp.
  destruct (fst c1); auto using step_low_eq.
Qed.

Lemma step_quiet (c : config) :
  cout (snd (step false c)) = cout (snd c).
Proof.
  destruct c as [p st]. unfold step. cbn [fst snd].
  destruct p; try reflexivity.
  - unfold fill_iter.
    destruct (available st >? 0); [|reflexivity].
    destruct (getline (gcode_file st) (line st)) as [[f1 raw] ok].
    destruct ok; [|reflexivity].
    destruct (filter_line raw) as [l1|]; [|reflexivity].
    destruct (wire_length l1 >? to_size_t (available st)); [reflexivity|].
    cbn -[wire_length to_int to_size_t Z.of_nat].
    destruct (negb _); reflexivity.
  - unfold ack_phase.
    destruct (pending_lengths st) as [|len rest] eqn:Hq; [reflexivity|].
    cbn -[to_int to_size_t is_ack trim_response readSerialLine].
    destruct (readSerialLine _ _) as [[[response rx'] perrs]|];
      [|reflexivity].
    destruct (is_ack response); [|reflexivity].
    cbn -[to_int to_size_t trim_response]. rewrite Hq.
    destruct (negb _); reflexivity.
Qed.

Lemma run_loop_quiet (fuel : nat) (c : config) :
  cout (snd (run_loop false fuel c)) = cout (snd c).
Proof.
  revert c; induction fuel as [|k IH]; intros c; [reflexivity|].
  cbn [run_loop]. destruct (fst c); try reflexivity;
    now rewrite IH, step_quiet.
Qed.

(** C10. With the same file and the same device, the run with the verbose
    flag and the run without it agree, after any number of steps, on where
    control is and on the whole state except [std::cout]: the file
    position, the connection (bytes written, [write] calls made, responses
    left), [available], the backlog, the return code, [std::cerr] and the
    history.  They leave the loop after the same number of steps and
    [main] returns the same value; without the flag nothing is printed on
    [std::cout]. *)
Theorem verbose_noninterference (f : ifstream) (d : serial) (fuel : nat) :
  let c1 := run_loop true fuel (PFill, init_state f d) in
  let c2 := run_loop false fuel (PFill, init_state f d) in
  fst c1 = fst c2 /\
  low (snd c1) = low (snd c2) /\
  tx (fd (snd c1)) = tx (fd (snd c2)) /\
  available (snd c1) = available (snd c2) /\
  pending_lengths (snd c1) = pending_lengths (snd c2) /\
  return_code (snd c1) = return_code (snd c2) /\
  history (snd c1) = history (snd c2) /\
  option_map snd (main true fuel f d)
  = option_map snd (main false fuel f d) /\
  cout (snd c2) = [].
Proof.
  intros c1 c2.
  assert (H : low_config c1 = low_config c2) by now apply run_loop_low.
  assert (Hp : fst c1 = fst c2) by exact (f_equal fst H).
  assert (Hl : low (snd c1) = low (snd c2)) by exact (f_equal snd H).
  split; [exact Hp|]. split; [exact Hl|].
  split; [exact (f_equal (fun s => tx (fd s)) Hl)|].
  split; [exact (f_equal available Hl)|].
  split; [exact (f_equal pending_lengths Hl)|].
  split; [exact (f_equal return_code Hl)|].
  split; [exact (f_equal history Hl)|].
  split.
  - unfold main. fold c1 c2.
    destruct c1 as [p1 s1], c2 as [p2 s2]. simpl in Hp, Hl. subst p2.
    destruct p1; simpl; try reflexivity.
    assert (Hrc : return_code s1 = return_code s2)
      by exact (f_equal return_code Hl).
    now rewrite Hrc.
  - subst c2. now rewrite run_loop_quiet.
Qed.

(** ** Termination *)

Lemma filter_line_nil : filter_line [] = None.
Proof. reflexivity. Qed.

Lemma filter_line_length (raw l : str) :
  filter_line raw = Some l ->
  (1 <= List.length l <= List.length raw)%nat.
Proof.
  unfold filter_line. destruct raw as [|x r]; [discriminate|].
  set (line1 := match find_char SEMI (x :: r) with
                | Some comment_pos => substr_to comment_pos (x :: r)
                | None => x :: r
                end).
  assert (H1 : (List.length line1 <= List.length (x :: r))%nat).
  { subst line1. destruct (find_char SEMI (x :: r)); [|lia].
    unfold substr_to. rewrite length_firstn. lia. }
  unfold erase_from.
  destruct (firstn _ line1) as [|y t] eqn:E; [discriminate|].
  intros H. injection H as <-.
  assert (H2 : (List.length (y :: t) <= List.length line1)%nat)
    by (rewrite <- E, length_firstn; lia).
  simpl in *. lia.
Qed.

Lemma find_char_here (ch : ascii) (s : str) (p : nat) :
  nth_error s p = Some ch -> find_char ch (skipn p s) = Some O.
Proof.
  revert p; induction s as [|x r IH]; intros [|p] H; simpl in *;
    try discriminate.
  - injection H as ->. now rewrite Ascii.eqb_refl.
  - now apply IH.
Qed.

Lemma nth_error_skipn_add {A} (s : list A) (p i : nat) :
  nth_error (skipn p s) i = nth_error s (p + i).
Proof.
  revert p; induction s as [|x r IH]; intros [|p]; simpl; auto.
  now destruct i.
Qed.

(** The three ways [getline] ends on a stream that is good. *)
Lemma getline_cases (f f1 : ifstream) (line0 raw : str) (ok : bool) :
  getline f line0 = (f1, raw, ok) ->
  alive f = true ->
  (gpos f <= List.length (content f))%nat ->
  (exists i,
      ok = true /\
      f1 = mk_ifstream (content f) (gpos f + i + 1) false false /\
      List.length raw = i /\
      (gpos f + i < List.length (content f))%nat /\
      nth_error (content f) (gpos f + i) = Some NL /\
      (i = O <-> nth_error (content f) (gpos f) = Some NL)) \/
  (ok = false /\ f1 = mk_ifstream (content f) (gpos f) true true) \/
  (ok = true /\
   f1 = mk_ifstream (content f) (List.length (content f)) true false /\
   (gpos f + List.length raw = List.length (content f))%nat /\
   (0 < List.length raw)%nat /\
   nth_error (content f) (gpos f) <> Some NL).
Proof.
  unfold getline, alive. intros H Ha Hp.
  apply andb_prop in Ha as [E1 E2]. apply negb_true_iff in E1, E2.
  rewrite E1, E2 in H. simpl in H.
  destruct (find_char NL (skipn (gpos f) (content f))) as [i|] eqn:Hfind.
  - left. exists i. injection H as <- <- <-.
    pose proof (find_char_lt _ _ _ Hfind) as Hlt. rewrite length_skipn in Hlt.
    pose proof (find_char_nth _ _ _ Hfind) as Hnth.
    rewrite nth_error_skipn_add in Hnth.
    repeat split; auto; try lia.
    + apply firstn_length_le. rewrite length_skipn. lia.
    + intros ->. now rewrite Nat.add_0_r in Hnth.
    + intros Hn. apply find_char_here in Hn. congruence.
  - right.
    destruct (skipn (gpos f) (content f)) as [|a rest] eqn:Hrest.
    + left. now injection H as <- _ <-.
    + right. injection H as <- <- <-.
      assert (Hlen : List.length (a :: rest)
                     = (List.length (content f) - gpos f)%nat)
        by now rewrite <- Hrest, length_skipn.
      simpl in Hlen. repeat split.
      * f_equal. lia.
      * simpl. lia.
      * simpl. lia.
      * intros Hn. apply find_char_here in Hn. congruence.
Qed.

Lemma getline_dead (f : ifstream) (line0 : str) :
  alive f = false ->
  getline f line0 = (mk_ifstream (content f) (gpos f) (eofbit f) true, line0, false).
Proof.
  unfold getline, alive. intros H.
  destruct (eofbit f), (failbit f); simpl in *; try discriminate; reflexivity.
Qed.

Lemma supplies_acks_le (n m : nat) (script : list rx_event) :
  (m <= n)%nat -> supplies_acks n script = true -> supplies_acks m script = true.
Proof.
  revert m script; induction n as [|n IH]; intros m script Hle H.
  - now replace m with O by lia.
  - destruct m as [|m]; [reflexivity|]. simpl in *.
    destruct (readSerialLine script []) as [[[r s'] e]|]; [|discriminate].
    apply andb_prop in H as [Hr Hs]. rewrite Hr. simpl.
    apply IH; [lia|exact Hs].
Qed.

Lemma alive_mk (bytes : str) (p : nat) (e b : bool) :
  alive (mk_ifstream bytes p e b) = negb e && negb b.
Proof. reflexivity. Qed.

Lemma floor_below_pos (bytes : str) (floor p : nat) :
  (floor = O \/ nth_error bytes (floor - 1) = Some NL) ->
  ((floor <= p)%nat \/ (p + 1)%nat = floor) ->
  nth_error bytes p <> Some NL ->
  (floor <= p)%nat.
Proof.
  intros Hnl [H|H] Hn; [exact H|].
  destruct Hnl as [->|Hnl]; [lia|].
  subst floor. replace (p + 1 - 1)%nat with p in Hnl by lia. contradiction.
Qed.

Lemma seekg_cur_back (bytes : str) (p k : nat) (e : bool) :
  (k <= p)%nat ->
  seekg_cur (mk_ifstream bytes p e false) (- Z.of_nat k)
  = mk_ifstream bytes (p - k) false false.
Proof.
  intros H. unfold seekg_cur. simpl.
  destruct (Z.of_nat p + - Z.of_nat k <? 0) eqn:E;
    [apply Z.ltb_lt in E; lia|].
  f_equal. lia.
Qed.

Lemma seekg_cur_before_start (bytes : str) (p k : nat) (e : bool) :
  (p < k)%nat ->
  seekg_cur (mk_ifstream bytes p e false) (- Z.of_nat k)
  = mk_ifstream bytes p false true.
Proof.
  intros H. unfold seekg_cur. simpl.
  destruct (Z.of_nat p + - Z.of_nat k <? 0) eqn:E;
    [reflexivity|apply Z.ltb_ge in E; lia].
Qed.

Lemma seek_offset (l : str) :
  - (Z.of_nat (List.length l) + 1) = - Z.of_nat (List.length l + 1).
Proof. lia. Qed.

Ltac term_fields :=
  constructor; cbn [fst snd]; proj; rewrite ?alive_mk; cbn [negb andb];
  auto; try discriminate; try lia.

Lemma fill_iter_term (verbose : bool) (bytes : str) (floor : nat) (st : state) :
  term_inv bytes floor (PFill, st) ->
  exists floor',
    term_inv bytes floor' (fill_iter verbose st) /\
    (term_measure bytes floor' (fill_iter verbose st)
     < term_measure bytes floor (PFill, st))%nat.
Proof.
  intros [Hc Hp Hf Hnl Hpf Hrc Hw Hs _ _]. cbn [fst snd] in *.
  unfold fill_iter, term_measure. cbn [fst snd].
  destruct (available st >? 0).
  2:{ exists floor. split; [term_fields|cbn [fst snd]; lia]. }
  destruct (alive (gcode_file st)) eqn:Ha.
  2:{ rewrite getline_dead by exact Ha. exists floor. split.
      - unfold alive in Ha.
        term_fields; destruct (eofbit (gcode_file st)); discriminate.
      - cbn [fst snd]. proj. lia. }
  destruct (getline (gcode_file st) (line st)) as [[f1 raw] ok] eqn:Hg.
  rewrite <- Hc in Hp.
  destruct (getline_cases _ _ _ _ _ Hg Ha Hp)
    as [(i & -> & -> & Hlen & Hlt & Hnth & Hi0)
       |[(-> & ->)|(-> & -> & Hlen & Hpos & Hnn)]];
    rewrite Hc in *.
  - (* the line ends in a newline *)
    destruct (filter_line raw) as [l|] eqn:Hfl.
    2:{ exists floor. split; [|cbn [fst snd]; proj; lia].
        term_fields; try (intros _; destruct (Hpf eq_refl); lia). }
    destruct (filter_line_length _ _ Hfl) as [Hl1 Hl2].
    assert (Hfp : (floor <= gpos (gcode_file st))%nat).
    { apply (floor_below_pos bytes); auto.
      intros Hn. apply Hi0 in Hn. lia. }
    destruct (wire_length l >? to_size_t (available st)).
    + rewrite seek_offset, seekg_cur_back by lia.
      exists floor. split; [|cbn [fst snd]; proj; lia].
      term_fields.
    + unfold dev_write. proj. rewrite Hw, Z.eqb_refl. cbn [negb]. proj.
      exists (gpos (gcode_file st) + i + 1)%nat. split.
      * term_fields.
        -- intros _. right. rewrite <- Hnth. f_equal. lia.
        -- apply supplies_acks_le with (2 := Hs).
           rewrite length_app. simpl. lia.
      * cbn [fst snd]. proj. rewrite length_app. simpl. nia.
  - exists floor. split; [term_fields|cbn [fst snd]; proj; lia].
  - (* the line ends at the end of the file *)
    destruct (filter_line raw) as [l|] eqn:Hfl.
    2:{ exists floor. split; [term_fields|cbn [fst snd]; proj; lia]. }
    destruct (filter_line_length _ _ Hfl) as [Hl1 Hl2].
    assert (Hfp : (floor <= gpos (gcode_file st))%nat)
      by (apply (floor_below_pos bytes); auto).
    destruct (wire_length l >? to_size_t (available st)).
    + rewrite seek_offset.
      destruct (Nat.le_gt_cases (List.length l + 1) (List.length bytes))
        as [Hfits|Hout].
      * rewrite seekg_cur_back by exact Hfits.
        exists floor. split; [|cbn [fst snd]; proj; lia].
        term_fields.
      * rewrite seekg_cur_before_start by exact Hout.
        exists floor. split; [term_fields|cbn [fst snd]; proj; lia].
    + unfold dev_write. proj. rewrite Hw, Z.eqb_refl. cbn [negb]. proj.
      exists (List.length bytes). split.
      * term_fields.
        apply supplies_acks_le with (2 := Hs).
        rewrite length_app. simpl. lia.
      * cbn [fst snd]. proj. rewrite length_app. simpl. nia.
Qed.

Lemma ack_phase_term (verbose : bool) (bytes : str) (floor : nat) (st : state) :
  term_inv bytes floor (PAck, st) ->
  term_inv bytes floor (ack_phase verbose st) /\
  (term_measure bytes floor (ack_phase verbose st)
   < term_measure bytes floor (PAck, st))%nat.
Proof.
  intros [Hc Hp Hf Hnl Hpf Hrc Hw Hs _ _]. cbn [fst snd] in *.
  unfold ack_phase, term_measure. cbn [fst snd].
  destruct (pending_lengths st) as [|len rest] eqn:Hq.
  { split; [term_fields; now rewrite Hq|cbn [fst snd]; rewrite Hq; simpl; lia]. }
  cbn [List.length Nat.add supplies_acks] in Hs.
  rewrite print_if_fd.
  destruct (readSerialLine (rx (fd st)) []) as [[[r rx'] perrs]|];
    [|discriminate].
  apply andb_prop in Hs as [Hr Hs]. rewrite Hr. proj.
  rewrite Hq. proj. rewrite Hrc. cbn [Z.eqb negb]. split.
  - term_fields.
  - cbn [fst snd]. proj. nia.
Qed.

Lemma step_term (verbose : bool) (bytes : str) (floor : nat) (c : config) :
  term_inv bytes floor c ->
  fst c <> PDone ->
  exists floor',
    term_inv bytes floor' (step verbose c) /\
    (term_measure bytes floor' (step verbose c)
     < term_measure bytes floor c)%nat.
Proof.
  intros H Hn. destruct c as [p st]. unfold step. cbn [fst snd] in *.
  destruct p.
  - now apply fill_iter_term.
  - exists floor. now apply ack_phase_term.
  - congruence.
  - destruct H. cbn [fst] in *. congruence.
Qed.

Lemma run_loop_term (verbose : bool) (bytes : str) (fuel : nat) :
  forall floor c,
    term_inv bytes floor c ->
    (term_measure bytes floor c < fuel)%nat ->
    exists st,
      run_loop verbose fuel c = (PDone, st) /\
      return_code st = 0 /\ pending_lengths st = [].
Proof.
  induction fuel as [|k IH]; intros floor c H Hm; [lia|].
  cbn [run_loop].
  destruct (fst c) eqn:Hp.
  - destruct (step_term verbose bytes floor c H) as (floor' & H' & Hlt);
      [congruence|].
    apply (IH floor'); [exact H'|lia].
  - destruct (step_term verbose bytes floor c H) as (floor' & H' & Hlt);
      [congruence|].
    apply (IH floor'); [exact H'|lia].
  - destruct c as [p st]. cbn [fst] in Hp. subst p.
    exists st. destruct H. cbn [fst snd] in *. auto.
  - destruct H. congruence.
Qed.

Lemma term_inv_init (bytes : str) (d : serial) :
  writes_complete d ->
  supplies_acks (List.length bytes) (rx d) = true ->
  term_inv bytes O (PFill, init_state (open_file bytes) d).
Proof.
  intros Hw Hs. constructor; cbn [fst snd]; simpl; auto; try lia;
    try discriminate.
  now rewrite Nat.sub_0_r.
Qed.

(** C7 (amended). For every finite text source, if every [write]
    transfers the whole line and the device answers every read with a
    response that contains the positive-acknowledgment token (for as many
    reads as the source has bytes, which no run exceeds), the loop is left
    after at most [enough_fuel] steps, [main] returns 0, the backlog is
    empty and [available] is back at [RX_BUFFER_SIZE]. *)
Theorem stream_terminates (verbose : bool) (bytes : str) (d : serial)
        (fuel : nat) :
  writes_complete d ->
  supplies_acks (List.length bytes) (rx d) = true ->
  (enough_fuel (List.length bytes) <= fuel)%nat ->
  exists st,
    main verbose fuel (open_file bytes) d = Some (st, 0) /\
    pending_lengths st = [] /\
    available st = RX_BUFFER_SIZE.
Proof.
  intros Hw Hs Hfuel.
  pose proof (term_inv_init bytes d Hw Hs) as Hinit.
  destruct (run_loop_term verbose bytes fuel O _ Hinit) as (st & Hrun & Hrc & Hq).
  { unfold term_measure, enough_fuel in *. cbn [fst snd]. simpl. lia. }
  assert (Hr : reachable verbose (open_file bytes) d (PDone, st)).
  { rewrite <- Hrun. apply reachable_run_loop, reach_init. }
  exists (fst (finish verbose st)).
  unfold main. rewrite Hrun. unfold finish. cbn [fst snd]. proj.
  rewrite Hrc. split; [reflexivity|]. split; [exact Hq|].
  destruct (reachable_budget_ok _ _ _ _ Hr) as (_ & Hsum & _).
  cbn [snd] in Hsum. rewrite Hq in Hsum. simpl in Hsum. lia.
Qed.

Lemma stream_terminates_witness :
  exists st,
    main true (enough_fuel 35) sample_file (sample_device (ok_script 35))
    = Some (st, 0) /\
    pending_lengths st = [] /\
    available st = RX_BUFFER_SIZE.
Proof.
  apply (stream_terminates true (content sample_file)
           (sample_device (ok_script 35)) (enough_fuel 35)).
  - intros i size. reflexivity.
  - vm_compute. reflexivity.
  - vm_compute. lia.
Defined.

(** C7, as stated, fails: the device keeps acknowledging, every response
    read contains ["ok"], but the third [write] returns -1; the program
    returns 1 and one command is still in the backlog. *)
Lemma stream_terminates_counterexample :
  supplies_acks 20 (rx third_write_fails) = true /\
  exists st,
    main false 20 three_commands third_write_fails = Some (st, 1) /\
    responses (history st) = [lit "ok" ++ [CR; NL]] /\
    forallb is_ack (responses (history st)) = true /\
    pending_lengths st = [6].
Proof.
  split; [vm_compute; reflexivity|].
  eexists. split; [vm_compute; reflexivity|]. repeat split.
Qed.

(** * Further properties *)

(** ** [readSerialLine] *)

Lemma delivered_app (a b : list rx_event) :
  delivered (a ++ b) = delivered a ++ delivered b.
Proof. unfold delivered. now rewrite filter_app, map_app. Qed.

Ltac event_facts :=
  unfold delivered; cbn [filter];
  unfold continues, delivers, perror_of;
  repeat match goal with
         | H : _ = true |- _ => rewrite H
         | H : _ = false |- _ => rewrite H
         end;
  cbn [negb andb orb filter map]; rewrite ?app_nil_r; reflexivity.

Lemma readSerialLine_inv (script script' : list rx_event)
        (line0 line1 : str) (perrs : list err_msg) :
  readSerialLine script line0 = Some (line1, script', perrs) ->
  exists used last,
    script = used ++ last :: script' /\
    forallb continues used = true /\
    continues last = false /\
    line1 = line0 ++ delivered (used ++ [last]) /\
    perrs = perror_of last.
Proof.
  revert line0. induction script as [|e script IH]; intros line0 H;
    [discriminate|].
  cbn [readSerialLine] in H.
  assert (Hstop : forall l p,
             continues e = false ->
             l = line0 ++ delivered [e] -> p = perror_of e ->
             Some (l, script, p) = Some (line1, script', perrs) ->
             exists used last,
               e :: script = used ++ last :: script' /\
               forallb continues used = true /\
               continues last = false /\
               line1 = line0 ++ delivered (used ++ [last]) /\
               perrs = perror_of last).
  { intros l p Hc Hl Hp Heq. injection Heq as <- <- <-.
    exists [], e. repeat split; auto. }
  assert (Hgo : forall l,
             continues e = true ->
             l = line0 ++ delivered [e] ->
             readSerialLine script l = Some (line1, script', perrs) ->
             exists used last,
               e :: script = used ++ last :: script' /\
               forallb continues used = true /\
               continues last = false /\
               line1 = line0 ++ delivered (used ++ [last]) /\
               perrs = perror_of last).
  { intros l Hc Hl Hrec.
    destruct (IH _ Hrec) as (used & last & -> & Hu & Hlast & -> & ->).
    exists (e :: used), last. cbn [forallb app]. rewrite Hc, Hu.
    repeat split; auto.
    change (e :: used ++ [last]) with ([e] ++ (used ++ [last])).
    rewrite (delivered_app [e]), Hl. now rewrite app_assoc. }
  destruct (sel_ret e =? -1) eqn:E1.
  { apply (Hstop line0 [PerrorSelect]); auto; event_facts. }
  destruct (sel_ret e =? 0) eqn:E0.
  { apply (Hstop line0 []); auto; event_facts. }
  destruct (fd_isset e) eqn:Es.
  2:{ apply (Hgo line0); auto; event_facts. }
  destruct (rd_ret e >? 0) eqn:Er.
  - destruct (Ascii.eqb (rd_buf e) NL) eqn:Eb.
    + apply (Hstop (line0 ++ [rd_buf e]) []); auto; event_facts.
    + apply (Hgo (line0 ++ [rd_buf e])); auto; event_facts.
  - destruct (rd_ret e =? 0) eqn:Ez.
    + apply (Hstop line0 []); auto; event_facts.
    + apply (Hstop line0 [PerrorRead]); auto; event_facts.
Qed.

(** X1. A call of [readSerialLine] that returns has consumed a non-empty
    prefix of the device's events: all but the last let the polling loop
    go round again, the last one ends it, and what is left is handed back
    untouched.  The line returned is the line so far followed by exactly
    the bytes that prefix delivered, in order; [perror] printed what the
    last event calls for. *)
Theorem readSerialLine_consumes_prefix (script script' : list rx_event)
        (line0 line1 : str) (perrs : list err_msg) :
  readSerialLine script line0 = Some (line1, script', perrs) ->
  exists used last,
    script = used ++ last :: script' /\
    forallb continues used = true /\
    continues last = false /\
    line1 = line0 ++ delivered (used ++ [last]) /\
    perrs = perror_of last.
Proof. apply readSerialLine_inv. Qed.

Lemma readSerialLine_consumes_prefix_witness :
  exists used last,
    rx_bytes (lit "ok" ++ [NL] ++ lit "error:9" ++ [NL])
    = used ++ last :: rx_bytes (lit "error:9" ++ [NL]) /\
    lit "ok" ++ [NL] = [] ++ delivered (used ++ [last]).
Proof.
  destruct (readSerialLine_consumes_prefix
              (rx_bytes (lit "ok" ++ [NL] ++ lit "error:9" ++ [NL]))
              (rx_bytes (lit "error:9" ++ [NL])) [] (lit "ok" ++ [NL]) [])
    as (used & last & H1 & _ & _ & H2 & _); [reflexivity|].
  exists used, last. split; assumption.
Defined.

Lemma delivered_continues_no_newline (used : list rx_event) :
  forallb continues used = true -> no_newline (delivered used) = true.
Proof.
  induction used as [|e used IH]; [reflexivity|].
  cbn [forallb]. intros H. apply andb_prop in H as [He Hu].
  change (e :: used) with ([e] ++ used). rewrite delivered_app.
  unfold no_newline in *. rewrite forallb_app, (IH Hu), andb_true_r.
  unfold delivered, delivers, continues in *. cbn [filter].
  destruct (sel_ret e =? -1); [discriminate|].
  destruct (sel_ret e =? 0); [discriminate|].
  destruct (fd_isset e); [|reflexivity].
  destruct (rd_ret e >? 0); [|reflexivity].
  cbn in He |- *. now rewrite He.
Qed.

Lemma delivered_last (e : rx_event) :
  continues e = false ->
  (delivered [e] = [NL] /\ perror_of e = []) \/ delivered [e] = [].
Proof.
  unfold delivered, delivers, continues, perror_of. cbn [filter].
  destruct (sel_ret e =? -1); [now right|].
  destruct (sel_ret e =? 0); [now right|].
  destruct (fd_isset e); [|discriminate].
  destruct (rd_ret e >? 0); [|now right].
  cbn. destruct (Ascii.eqb (rd_buf e) NL) eqn:E; [|discriminate].
  apply Ascii.eqb_eq in E. rewrite E. now left.
Qed.

(** X2. [readSerialLine] never returns more than one line: started on an
    empty line it returns either a text without any newline (the read was
    cut short by [select] or [read]) or such a text followed by one
    newline, and in that case [perror] printed nothing. *)
Theorem readSerialLine_one_line (script script' : list rx_event)
        (line1 : str) (perrs : list err_msg) :
  readSerialLine script [] = Some (line1, script', perrs) ->
  exists body,
    no_newline body = true /\
    (line1 = body \/ (line1 = body ++ [NL] /\ perrs = [])).
Proof.
  intros H.
  destruct (readSerialLine_inv _ _ _ _ _ H)
    as (used & last & _ & Hu & Hl & -> & ->).
  exists (delivered used).
  split; [now apply delivered_continues_no_newline|].
  rewrite delivered_app. cbn [app].
  destruct (delivered_last last Hl) as [(-> & ->)| ->].
  - now right.
  - left. now rewrite app_nil_r.
Qed.

Lemma readSerialLine_one_line_witness :
  exists body,
    no_newline body = true /\
    (lit "ok" ++ [CR; NL] = body \/
     (lit "ok" ++ [CR; NL] = body ++ [NL] /\ @nil err_msg = [])).
Proof.
  apply (readSerialLine_one_line (ok_script 2) (ok_script 1)).
  reflexivity.
Defined.

Lemma readSerialLine_blocks_iff_aux (script : list rx_event) (line0 : str) :
  readSerialLine script line0 = None -> forallb continues script = true.
Proof.
  revert line0. induction script as [|e script IH]; intros line0;
    [reflexivity|].
  cbn [readSerialLine forallb]. unfold continues at 1.
  destruct (sel_ret e =? -1); [discriminate|].
  destruct (sel_ret e =? 0); [discriminate|].
  destruct (fd_isset e); cbn [negb andb orb]; [|apply IH].
  destruct (rd_ret e >? 0); cbn [negb andb orb].
  - destruct (Ascii.eqb (rd_buf e) NL); cbn [negb andb];
      [discriminate|apply IH].
  - destruct (rd_ret e =? 0); discriminate.
Qed.

(** X3. [readSerialLine] fails to return exactly when no event of the
    device's script ends the polling loop: no [select] returns -1 or 0,
    and every byte read is not a newline. *)
Theorem readSerialLine_blocks_iff (script : list rx_event) (line0 : str) :
  readSerialLine script line0 = None <-> forallb continues script = true.
Proof.
  split; [apply readSerialLine_blocks_iff_aux|].
  revert line0. induction script as [|e script IH]; intros line0;
    [reflexivity|].
  cbn [readSerialLine forallb]. unfold continues at 1.
  destruct (sel_ret e =? -1); [discriminate|].
  destruct (sel_ret e =? 0); [discriminate|].
  destruct (fd_isset e); cbn [negb andb orb]; [|apply IH].
  destruct (rd_ret e >? 0); cbn [negb andb orb].
  - destruct (Ascii.eqb (rd_buf e) NL); cbn [negb andb];
      [discriminate|apply IH].
  - destruct (rd_ret e =? 0); discriminate.
Qed.

(** ** Trimming and filtering *)

Lemma drop_trailing_ws_split (s : str) :
  exists t, s = drop_trailing_ws s ++ t /\ forallb is_ws t = true.
Proof.
  induction s as [|x r (t & Hr & Ht)]; [now exists []|].
  rewrite drop_trailing_ws_cons.
  destruct (drop_trailing_ws r) as [|y ys] eqn:E.
  - simpl in Hr. subst t.
    destruct (is_ws x) eqn:Ex.
    + exists (x :: r). simpl. now rewrite Ex, Ht.
    + now exists r.
  - exists t. split; [|exact Ht]. simpl. now rewrite Hr at 1.
Qed.

Lemma drop_trailing_ws_last (s : str) :
  drop_trailing_ws s = [] \/ is_ws (last (drop_trailing_ws s) SP) = false.
Proof.
  induction s as [|x r IH]; [now left|].
  rewrite drop_trailing_ws_cons.
  destruct (drop_trailing_ws r) as [|y ys] eqn:E.
  - destruct (is_ws x) eqn:Ex; [now left|right; exact Ex].
  - right. destruct IH as [IH|IH]; [discriminate|exact IH].
Qed.

Lemma drop_trailing_ws_fixed (s : str) :
  is_ws (last s SP) = false -> drop_trailing_ws s = s.
Proof.
  induction s as [|x r IH]; [reflexivity|].
  intros H. rewrite drop_trailing_ws_cons.
  destruct r as [|y ys].
  - simpl in *. now rewrite H.
  - rewrite IH by exact H. reflexivity.
Qed.

Lemma drop_trailing_ws_nil_blank (s : str) :
  drop_trailing_ws s = [] -> forallb is_ws s = true.
Proof.
  intros H. destruct (drop_trailing_ws_split s) as (t & Hs & Ht).
  rewrite H in Hs. simpl in Hs. now subst.
Qed.

Lemma before_comment_split (s : str) :
  exists t, s = before_comment s ++ t /\ ~ In SEMI (before_comment s).
Proof.
  induction s as [|x r (t & Hr & Hn)]; [exists []; auto|].
  simpl. destruct (Ascii.eqb x SEMI) eqn:E.
  - exists (x :: r). auto.
  - exists t. split; [simpl; now rewrite Hr at 1|].
    intros [->|H]; [|contradiction].
    now rewrite Ascii.eqb_refl in E.
Qed.

Lemma before_comment_fixed (s : str) :
  ~ In SEMI s -> before_comment s = s.
Proof.
  induction s as [|x r IH]; [reflexivity|].
  intros H. simpl. destruct (Ascii.eqb x SEMI) eqn:E.
  - apply Ascii.eqb_eq in E. subst. exfalso. apply H. now left.
  - rewrite IH; [reflexivity|]. intros Hin. apply H. now right.
Qed.

Lemma filter_line_shape_facts (raw l : str) :
  filter_line raw = Some l ->
  exists tail, raw = l ++ tail /\ filter_line l = Some l.
Proof.
  rewrite filter_line_refines. unfold spec_command_record. intros H.
  destruct (before_comment_split raw) as (t1 & Hraw & Hsemi).
  destruct (drop_trailing_ws_split (before_comment raw)) as (t2 & Hb & Ht2).
  destruct (drop_trailing_ws (before_comment raw)) as [|y ys] eqn:E;
    [discriminate|].
  injection H as <-.
  exists (t2 ++ t1). split; [rewrite app_assoc, <- Hb; exact Hraw|].
  rewrite filter_line_refines. unfold spec_command_record.
  rewrite before_comment_fixed.
  - rewrite drop_trailing_ws_fixed; [reflexivity|].
    destruct (drop_trailing_ws_last (before_comment raw)) as [H|H];
      rewrite E in H; [discriminate|exact H].
  - intros Hin. apply Hsemi. rewrite Hb. apply in_or_app. now left.
Qed.

(** X4. A command produced by the filter of lines 239-247 is a non-empty
    prefix of the raw line (leading whitespace is kept), holds no [';'] and
    does not end in whitespace.  Filtering a command again gives the same
    command. *)
Theorem filter_line_shape (raw l : str) :
  filter_line raw = Some l ->
  (exists tail, raw = l ++ tail) /\
  l <> [] /\
  ~ In SEMI l /\
  is_ws (last l SP) = false /\
  filter_line l = Some l.
Proof.
  rewrite filter_line_refines. unfold spec_command_record. intros H.
  destruct (before_comment_split raw) as (t1 & Hraw & Hsemi).
  destruct (drop_trailing_ws_split (before_comment raw)) as (t2 & Hb & Ht2).
  destruct (drop_trailing_ws (before_comment raw)) as [|y ys] eqn:E;
    [discriminate|].
  injection H as <-.
  assert (Hno : ~ In SEMI (y :: ys)).
  { intros Hin. apply Hsemi. rewrite Hb. apply in_or_app. now left. }
  assert (Hlast : is_ws (last (y :: ys) SP) = false).
  { destruct (drop_trailing_ws_last (before_comment raw)) as [H|H];
      rewrite E in H; [discriminate|exact H]. }
  split; [exists (t2 ++ t1); rewrite app_assoc, <- Hb; exact Hraw|].
  split; [discriminate|]. split; [exact Hno|]. split; [exact Hlast|].
  rewrite filter_line_refines. unfold spec_command_record.
  rewrite before_comment_fixed by exact Hno.
  now rewrite drop_trailing_ws_fixed by exact Hlast.
Qed.

Lemma filter_line_shape_witness :
  (exists tail, lit "  G1 X1 ; comment" = lit "  G1 X1" ++ tail) /\
  filter_line (lit "  G1 X1") = Some (lit "  G1 X1").
Proof.
  destruct (filter_line_shape (lit "  G1 X1 ; comment") (lit "  G1 X1"))
    as (H1 & _ & _ & _ & H2); [reflexivity|].
  split; assumption.
Defined.

Lemma find_first_not_of_ws (r : str) :
  match find_first_not_of WS r with
  | Some i => skipn i r = drop_leading_ws r /\ forallb is_ws r = false
  | None => forallb is_ws r = true
  end.
Proof.
  induction r as [|x r IH]; [reflexivity|].
  cbn [find_first_not_of drop_leading_ws forallb]. fold (is_ws x).
  destruct (is_ws x); [|now split].
  destruct (find_first_not_of WS r); exact IH.
Qed.

Lemma find_last_not_of_blank (s : str) :
  forallb is_ws s = true -> find_last_not_of WS s = None.
Proof.
  induction s as [|x r IH]; [reflexivity|].
  cbn [forallb find_last_not_of]. intros H. apply andb_prop in H as [Hx Hr].
  rewrite IH by exact Hr. fold (is_ws x). now rewrite Hx.
Qed.

Lemma find_last_not_of_none (s : str) :
  find_last_not_of WS s = None -> forallb is_ws s = true.
Proof.
  intros H. apply drop_trailing_ws_nil_blank.
  now rewrite <- erase_trailing_ws, H.
Qed.

Lemma drop_leading_ws_split (r : str) :
  exists pre, r = pre ++ drop_leading_ws r /\ forallb is_ws pre = true.
Proof.
  induction r as [|x r (pre & Hr & Hp)]; [now exists []|].
  cbn [drop_leading_ws]. destruct (is_ws x) eqn:Ex.
  - exists (x :: pre). simpl. rewrite Ex, Hp. split; [now rewrite Hr at 1|auto].
  - now exists [].
Qed.

Lemma drop_leading_ws_head (r : str) :
  forallb is_ws r = false ->
  exists a rest, drop_leading_ws r = a :: rest /\ is_ws a = false.
Proof.
  induction r as [|x r IH]; [discriminate|].
  cbn [drop_leading_ws forallb]. destruct (is_ws x) eqn:Ex.
  - exact IH.
  - intros _. now exists x, r.
Qed.

Lemma drop_trailing_ws_head (a : ascii) (s : str) :
  is_ws a = false ->
  exists rest, drop_trailing_ws (a :: s) = a :: rest.
Proof.
  intros Ha. rewrite drop_trailing_ws_cons, Ha.
  destruct (drop_trailing_ws s); eauto.
Qed.

Lemma trim_response_eq (r : str) :
  trim_response r =
  if forallb is_ws r then r else drop_trailing_ws (drop_leading_ws r).
Proof.
  unfold trim_response, substr_from, substr_to.
  pose proof (find_first_not_of_ws r) as Hf.
  destruct (find_first_not_of WS r) as [i|].
  - destruct Hf as [-> Hb]. rewrite Hb.
    rewrite <- erase_trailing_ws. unfold erase_from.
    destruct (find_last_not_of WS (drop_leading_ws r)) as [e|] eqn:E.
    + now rewrite Nat.add_1_r.
    + apply find_last_not_of_none in E.
      destruct (drop_leading_ws_head r Hb) as (a & rest & Hd & Ha).
      rewrite Hd in E. simpl in E. now rewrite Ha in E.
  - rewrite Hf. now rewrite find_last_not_of_blank.
Qed.

(** X5. Trimming a response (lines 287-294) leaves a response that is
    whitespace only, or empty, as it is; from any other response it removes
    the whitespace at both ends and nothing else: the result begins and
    ends with a character that is not whitespace. *)
Theorem trim_response_shape (r : str) :
  (forallb is_ws r = true -> trim_response r = r) /\
  (forallb is_ws r = false ->
   exists pre post,
     r = pre ++ trim_response r ++ post /\
     forallb is_ws pre = true /\ forallb is_ws post = true /\
     is_ws (hd SP (trim_response r)) = false /\
     is_ws (last (trim_response r) SP) = false).
Proof.
  rewrite trim_response_eq. split; intros H; rewrite H; [reflexivity|].
  destruct (drop_leading_ws_split r) as (pre & Hr & Hpre).
  destruct (drop_trailing_ws_split (drop_leading_ws r)) as (post & Hd & Hpost).
  destruct (drop_leading_ws_head r H) as (a & rest & Ha & Hws).
  exists pre, post. split; [now rewrite <- Hd|].
  split; [exact Hpre|]. split; [exact Hpost|].
  rewrite Ha. destruct (drop_trailing_ws_head a rest Hws) as (rest' & Ht).
  split; [now rewrite Ht|].
  destruct (drop_trailing_ws_last (a :: rest)) as [Hn|Hl];
    [rewrite Ht in Hn; discriminate|exact Hl].
Qed.

Lemma trim_response_shape_witness :
  trim_response [SP; CR; NL] = [SP; CR; NL] /\
  exists pre post,
    [SP] ++ lit "ok" ++ [CR; NL]
    = pre ++ trim_response ([SP] ++ lit "ok" ++ [CR; NL]) ++ post /\
    forallb is_ws pre = true /\ forallb is_ws post = true.
Proof.
  split.
  - apply (trim_response_shape [SP; CR; NL]). reflexivity.
  - destruct (proj2 (trim_response_shape ([SP] ++ lit "ok" ++ [CR; NL])))
      as (pre & post & H1 & H2 & H3 & _); [reflexivity|].
    exists pre, post. repeat split; assumption.
Defined.

(** ** Classifying a response *)

Lemma tolower_ws (a : ascii) : is_ws a = true -> tolower a = a.
Proof.
  unfold is_ws, mem, WS. cbn [existsb]. intros H.
  repeat (apply orb_prop in H as [H|H];
          [apply Ascii.eqb_eq in H; subst a; reflexivity|]).
  discriminate.
Qed.

Lemma tolower_letter_not_ws (a c : ascii) :
  tolower a = c -> is_ws c = false -> is_ws a = false.
Proof.
  intros Ha Hc. destruct (is_ws a) eqn:E; [|reflexivity].
  rewrite (tolower_ws a E) in Ha. congruence.
Qed.

Lemma drop_leading_ws_keeps (pre rest : str) (a : ascii) :
  is_ws a = false ->
  exists pre', drop_leading_ws (pre ++ a :: rest) = pre' ++ a :: rest.
Proof.
  intros Ha. induction pre as [|x pre (pre' & IH)].
  - exists []. simpl. now rewrite Ha.
  - cbn [app drop_leading_ws]. destruct (is_ws x).
    + now exists pre'.
    + now exists (x :: pre).
Qed.

Lemma drop_trailing_ws_keeps (pre post : str) (b : ascii) :
  is_ws b = false ->
  exists post', drop_trailing_ws (pre ++ b :: post) = pre ++ b :: post'.
Proof.
  intros Hb. induction pre as [|x pre (post' & IH)].
  - now apply drop_trailing_ws_head.
  - exists post'. cbn [app]. rewrite drop_trailing_ws_cons, IH.
    now destruct pre.
Qed.

Lemma starts_with_app (t q : str) : starts_with t (t ++ q) = true.
Proof.
  induction t as [|x t IH]; [now destruct q|].
  simpl. now rewrite Ascii.eqb_refl.
Qed.

Lemma contains_app (t p q : str) : contains t (p ++ t ++ q) = true.
Proof.
  induction p as [|x p IH].
  - simpl. destruct (t ++ q) eqn:E; simpl;
      rewrite <- E, starts_with_app; reflexivity.
  - cbn [app contains]. rewrite IH. apply orb_true_r.
Qed.

(** X6. The acknowledgment test of lines 287-301 accepts every response
    in which a letter [o] is directly followed by a letter [k], in either
    case and anywhere in the text: whatever surrounds the two letters, the
    response is classified as a positive acknowledgment. *)
Theorem is_ack_ok_anywhere (pre post : str) (a b : ascii) :
  tolower a = "o"%char ->
  tolower b = "k"%char ->
  is_ack (pre ++ a :: b :: post) = true.
Proof.
  intros Ha Hb.
  assert (Hwa : is_ws a = false)
    by (apply (tolower_letter_not_ws a "o"); [exact Ha|reflexivity]).
  assert (Hwb : is_ws b = false)
    by (apply (tolower_letter_not_ws b "k"); [exact Hb|reflexivity]).
  unfold is_ack. rewrite trim_response_eq.
  assert (Hnb : forallb is_ws (pre ++ a :: b :: post) = false).
  { rewrite forallb_app. cbn [forallb]. rewrite Hwa. apply andb_false_r. }
  rewrite Hnb.
  destruct (drop_leading_ws_keeps pre (b :: post) a Hwa) as (pre' & ->).
  change (pre' ++ a :: b :: post) with (pre' ++ [a] ++ b :: post).
  rewrite app_assoc.
  destruct (drop_trailing_ws_keeps (pre' ++ [a]) post b Hwb) as (post' & ->).
  rewrite <- app_assoc, map_app. cbn [app map]. rewrite Ha, Hb.
  apply (contains_app OK_TOKEN (map tolower pre') (map tolower post')).
Qed.

Lemma is_ack_ok_anywhere_witness :
  is_ack (lit "error: tool br" ++ "O"%char :: "k"%char :: lit "en" ++ [CR; NL])
  = true.
Proof.
  apply (is_ack_ok_anywhere (lit "error: tool br") (lit "en" ++ [CR; NL]));
    reflexivity.
Defined.

Lemma trim_response_infix (r : str) :
  exists pre post, r = pre ++ trim_response r ++ post.
Proof.
  rewrite trim_response_eq. destruct (forallb is_ws r).
  - exists [], []. now rewrite app_nil_r.
  - destruct (drop_leading_ws_split r) as (pre & Hr & _).
    destruct (drop_trailing_ws_split (drop_leading_ws r)) as (post & Hd & _).
    exists pre, post. now rewrite <- Hd.
Qed.

Lemma starts_with_inv (t s : str) :
  starts_with t s = true -> exists q, s = t ++ q.
Proof.
  revert s; induction t as [|x t IH]; intros s H; [now exists s|].
  destruct s as [|y s]; [discriminate|]. simpl in H.
  apply andb_prop in H as [Hx Ht]. apply Ascii.eqb_eq in Hx. subst y.
  destruct (IH s Ht) as (q & ->). now exists q.
Qed.

Lemma contains_inv (t s : str) :
  contains t s = true -> exists p q, s = p ++ t ++ q.
Proof.
  induction s as [|x s IH]; cbn [contains]; intros H;
    apply orb_prop in H as [H|H]; try discriminate.
  - destruct (starts_with_inv _ _ H) as (q & Hq). now exists [], q.
  - destruct (starts_with_inv _ _ H) as (q & Hq). now exists [], q.
  - destruct (IH H) as (p & q & ->). now exists (x :: p), q.
Qed.

(** X7. Conversely, a response is classified as a positive acknowledgment
    only if it holds a letter [o] directly followed by a letter [k] (in
    either case): a response without that pair, an empty one included, is
    never taken for an acknowledgment. *)
Theorem is_ack_only_with_ok (r : str) :
  is_ack r = true ->
  exists pre a b post,
    r = pre ++ a :: b :: post /\
    tolower a = "o"%char /\ tolower b = "k"%char.
Proof.
  unfold is_ack. intros H.
  destruct (contains_inv _ _ H) as (p & q & Hm).
  destruct (trim_response_infix r) as (pre & post & Hr).
  apply map_eq_app in Hm as (p' & rest & Ht & _ & Hrest).
  change (OK_TOKEN ++ q) with ("o"%char :: "k"%char :: q) in Hrest.
  apply map_eq_cons in Hrest as (a & rest1 & -> & Ha & Hrest).
  apply map_eq_cons in Hrest as (b & rest2 & -> & Hb & _).
  exists (pre ++ p'), a, b, (rest2 ++ post).
  split; [|split; assumption].
  rewrite Hr at 1. rewrite Ht, <- !app_assoc. reflexivity.
Qed.

Lemma is_ack_only_with_ok_witness :
  exists pre a b post,
    lit "ok" ++ [CR; NL] = pre ++ a :: b :: post /\
    tolower a = "o"%char /\ tolower b = "k"%char.
Proof.
  apply is_ack_only_with_ok. reflexivity.
Defined.

(** ** What the loop writes and keeps *)

Lemma find_char_none (ch : ascii) (s : str) :
  find_char ch s = None ->
  forallb (fun x => negb (Ascii.eqb x ch)) s = true.
Proof.
  induction s as [|x r IH]; [reflexivity|]. simpl.
  destruct (Ascii.eqb x ch); [discriminate|].
  destruct (find_char ch r); [discriminate|]. intros _. now apply IH.
Qed.

Lemma find_char_firstn (ch : ascii) (s : str) (i : nat) :
  find_char ch s = Some i ->
  forallb (fun x => negb (Ascii.eqb x ch)) (firstn i s) = true.
Proof.
  revert i; induction s as [|x r IH]; intros i; [discriminate|]. simpl.
  destruct (Ascii.eqb x ch) eqn:E; [intros H; now injection H as <-|].
  destruct (find_char ch r) as [j|]; [|discriminate].
  intros H. injection H as <-. simpl. rewrite E. now apply IH.
Qed.

Lemma getline_no_newline (f f1 : ifstream) (line0 raw : str) :
  getline f line0 = (f1, raw, true) -> no_newline raw = true.
Proof.
  unfold getline, no_newline.
  destruct (eofbit f || failbit f); [discriminate|].
  destruct (find_char NL (skipn (gpos f) (content f))) as [i|] eqn:E.
  - intros H. injection H as _ <-. now apply find_char_firstn.
  - destruct (skipn (gpos f) (content f)) eqn:Er; [discriminate|].
    intros H. injection H as _ <-. now apply find_char_none.
Qed.

Lemma sum_lengths_at_least (q : list Z) :
  Forall (fun len => 2 <= len) q ->
  2 * Z.of_nat (List.length q) <= sum_lengths q.
Proof.
  induction 1 as [|x q Hx _ IH]; [simpl; lia|].
  cbn [List.length sum_lengths fold_right]. fold (sum_lengths q). lia.
Qed.

Lemma fill_iter_commands (verbose : bool) (st : state) :
  0 <= available st <= RX_BUFFER_SIZE ->
  exists evs sent,
    history (snd (fill_iter verbose st)) = history st ++ evs /\
    pending_lengths (snd (fill_iter verbose st)) = pending_lengths st ++ sent /\
    Forall (fun len => 2 <= len) sent /\
    forall buf ret, In (EvWrite buf ret) evs -> command_buffer buf.
Proof.
  intros Ha.
  assert (Hidle : forall st', history st' = history st ->
            pending_lengths st' = pending_lengths st ->
            exists evs sent,
              history st' = history st ++ evs /\
              pending_lengths st' = pending_lengths st ++ sent /\
              Forall (fun len => 2 <= len) sent /\
              forall buf ret, In (EvWrite buf ret) evs -> command_buffer buf).
  { intros st' Hh Hq. exists [], []. rewrite !app_nil_r.
    repeat split; auto. intros ? ? []. }
  unfold fill_iter.
  destruct (available st >? 0); [|now apply Hidle].
  destruct (getline (gcode_file st) (line st)) as [[f1 raw] ok] eqn:Hg.
  destruct ok; [|now apply Hidle].
  destruct (filter_line raw) as [l|] eqn:Hf; [|now apply Hidle].
  destruct (wire_length l >? to_size_t (available st)) eqn:Hfit;
    [now apply Hidle|].
  rewrite to_size_t_small in Hfit by (unfold RX_BUFFER_SIZE in Ha; lia).
  rewrite Z.gtb_ltb in Hfit. apply Z.ltb_ge in Hfit.
  assert (Hbuf : command_buffer (l ++ [NL])).
  { destruct (filter_line_shape_facts raw l Hf) as (tail & Hraw & Hid).
    exists l. repeat split; auto.
    - apply getline_no_newline in Hg. rewrite Hraw in Hg.
      unfold no_newline in *. rewrite forallb_app in Hg.
      now apply andb_prop in Hg as [Hg _].
    - rewrite wire_length_send_line. lia. }
  destruct (filter_line_length _ _ Hf) as [Hl1 _].
  unfold dev_write. destruct (negb _); proj.
  - exists [EvWrite (l ++ [NL])
              (write_ret (fd st) (nwrites (fd st))
                         (Z.of_nat (List.length (l ++ [NL]))))], [].
    rewrite app_nil_r. repeat split; auto.
    intros buf ret [H|[]]. now injection H as <- _.
  - eexists [_; _], [wire_length l]. rewrite <- app_assoc.
    split; [reflexivity|]. split; [reflexivity|].
    split; [constructor; [unfold wire_length; lia|constructor]|].
    intros buf ret [H|[H|[]]]; [|discriminate]. now injection H as <- _.
Qed.

Lemma step_commands (verbose : bool) (c : config) :
  budget_ok (snd c) ->
  (Forall (fun len => 2 <= len) (pending_lengths (snd c)) /\
   forall buf ret, In (EvWrite buf ret) (history (snd c)) -> command_buffer buf) ->
  Forall (fun len => 2 <= len) (pending_lengths (snd (step verbose c))) /\
  forall buf ret,
    In (EvWrite buf ret) (history (snd (step verbose c))) -> command_buffer buf.
Proof.
  intros (Hpos & Hsum & Hall) (Hq & Hw).
  destruct c as [p st]. unfold step. cbn [fst snd] in *.
  destruct p; auto.
  - destruct (fill_iter_commands verbose st) as (evs & sent & -> & -> & Hs & He).
    { pose proof (sum_lengths_nonneg _ Hall). lia. }
    split; [now apply Forall_app|].
    intros buf ret Hin. apply in_app_or in Hin as [Hin|Hin]; eauto.
  - destruct (ack_phase_effect verbose st)
      as [Hh Hp _ _ _ _ _
         |buf r Hf _ _ _ _ _ _ _ _
         |buf len Hf _ _ _ _ _ _ _ _
         |r len _ _ Hh _ Hp _ _ _
         |r _ _ Hh _ Hp _ _ _ _ _]; try discriminate.
    + now rewrite Hh, Hp.
    + rewrite Hh. rewrite Hp in Hq. inversion Hq; subst. split; [assumption|].
      intros buf ret Hin. apply in_app_or in Hin as [Hin|[Hin|[Hin|[]]]];
        eauto; discriminate.
    + rewrite Hh, Hp. split; [assumption|].
      intros buf ret Hin. apply in_app_or in Hin as [Hin|[Hin|[]]];
        eauto; discriminate.
Qed.

Lemma reachable_commands (verbose : bool) (f : ifstream) (d : serial)
      (c : config) :
  reachable verbose f d c ->
  Forall (fun len => 2 <= len) (pending_lengths (snd c)) /\
  forall buf ret, In (EvWrite buf ret) (history (snd c)) -> command_buffer buf.
Proof.
  induction 1 as [|c Hr IH].
  - split; [constructor|intros ? ? []].
  - apply step_commands; [now apply (reachable_budget_ok verbose f d)|exact IH].
Qed.

(** X8. Whatever the file holds and whatever the device does, every
    buffer the loop hands to [write] is one filtered command followed by
    one newline: it holds no other newline and no [';'], does not end in
    whitespace before the newline, and is at most 127 bytes long. *)
Theorem written_buffers_are_commands (verbose : bool) (f : ifstream)
        (d : serial) (c : config) (buf : str) (ret : Z) :
  reachable verbose f d c ->
  In (EvWrite buf ret) (history (snd c)) ->
  exists l,
    buf = l ++ [NL] /\
    filter_line l = Some l /\
    no_newline l = true /\
    ~ In SEMI l /\
    is_ws (last l SP) = false /\
    2 <= Z.of_nat (List.length buf) <= RX_BUFFER_SIZE.
Proof.
  intros Hr Hin.
  destruct (reachable_commands _ _ _ _ Hr) as (_ & Hw).
  destruct (Hw buf ret Hin) as (l & -> & Hf & Hn & Hlen).
  exists l. split; [reflexivity|]. split; [exact Hf|]. split; [exact Hn|].
  destruct (filter_line_length _ _ Hf) as [Hl _].
  rewrite filter_line_refines in Hf. unfold spec_command_record in Hf.
  destruct (before_comment_split l) as (t1 & Hraw & Hsemi).
  destruct (drop_trailing_ws_last (before_comment l)) as [Hd|Hd].
  { rewrite Hd in Hf. discriminate. }
  destruct (drop_trailing_ws (before_comment l)) as [|y ys] eqn:E;
    [discriminate|].
  injection Hf as Hf.
  destruct (drop_trailing_ws_split (before_comment l)) as (t2 & Hb & _).
  rewrite E, Hf in Hb.
  split.
  { intros Hs. apply Hsemi. rewrite Hb. apply in_or_app. now left. }
  split; [now rewrite Hf in Hd|].
  rewrite length_app in *. simpl in *. lia.
Qed.

Lemma written_buffers_are_commands_witness :
  exists l,
    lit "G1 Y10" ++ [NL] = l ++ [NL] /\
    filter_line l = Some l /\
    no_newline l = true.
Proof.
  destruct (written_buffers_are_commands true sample_file
              (sample_device (ok_script 2))
              (run_loop true 6 (PFill, init_state sample_file
                                         (sample_device (ok_script 2))))
              (lit "G1 Y10" ++ [NL]) 7)
    as (l & H1 & H2 & H3 & _).
  - apply reachable_run_loop, reach_init.
  - vm_compute. auto.
  - exists l. repeat split; assumption.
Defined.

(** X9. The backlog stays small: in every reachable state each pending
    length is between 2 and 127 and the queue holds at most 63 of
    them. *)
Theorem backlog_bounded (verbose : bool) (f : ifstream) (d : serial)
        (c : config) :
  reachable verbose f d c ->
  Forall (fun len => 2 <= len <= RX_BUFFER_SIZE) (pending_lengths (snd c)) /\
  (List.length (pending_lengths (snd c)) <= 63)%nat.
Proof.
  intros Hr.
  destruct (reachable_commands _ _ _ _ Hr) as (H2 & _).
  destruct (reachable_budget_ok _ _ _ _ Hr) as (Hpos & Hsum & Hall).
  pose proof (sum_lengths_at_least _ H2) as Hlen.
  split; [|unfold RX_BUFFER_SIZE in *; lia].
  clear Hlen. revert Hsum Hpos H2 Hall. generalize (available (snd c)).
  induction (pending_lengths (snd c)) as [|x q IH];
    intros a Hsum Hpos H2 Hall; [constructor|].
  apply Forall_cons_iff in H2 as [Hx H2].
  apply Forall_cons_iff in Hall as [_ Hall].
  cbn [sum_lengths fold_right] in Hsum. fold (sum_lengths q) in Hsum.
  pose proof (sum_lengths_nonneg _ Hall).
  constructor; [lia|].
  apply (IH (a + x)); auto; lia.
Qed.

Lemma backlog_bounded_witness :
  let c := run_loop false 5 (PFill, init_state five_commands error9_device) in
  pending_lengths (snd c) = [6; 6; 6; 6; 6] /\
  (List.length (pending_lengths (snd c)) <= 63)%nat.
Proof.
  intros c. split; [vm_compute; reflexivity|].
  apply (backlog_bounded false five_commands error9_device c).
  apply reachable_run_loop, reach_init.
Defined.

(** ** Where the program can wait, and what it returns *)

Lemma fill_iter_pc (verbose : bool) (st : state) :
  fst (fill_iter verbose st) = PFill \/ fst (fill_iter verbose st) = PAck.
Proof.
  destruct (fill_iter_effect verbose st)
    as [_ _ _ _ _ _ Hp
       |buf r _ Hp _ _ _ _ _ _ _
       |buf len _ Hp _ _ _ _ _ _ _
       |r len Hf _ _ _ _ _ _ _
       |r Hf _ _ _ _ _ _ _ _ _]; auto; discriminate.
Qed.

Lemma ack_phase_blocked (verbose : bool) (st : state) :
  fst (ack_phase verbose st) = PBlocked ->
  pending_lengths (snd (ack_phase verbose st)) <> [] /\
  readSerialLine (rx (fd (snd (ack_phase verbose st)))) [] = None.
Proof.
  unfold ack_phase.
  destruct (pending_lengths st) as [|len rest] eqn:Hq; [discriminate|].
  rewrite print_if_fd.
  destruct (readSerialLine (rx (fd st)) []) as [[[r rx'] perrs]|] eqn:Hrd.
  - destruct (is_ack r); [|discriminate]. proj. rewrite Hq.
    destruct (negb _); discriminate.
  - intros _. proj. rewrite Hq. split; [discriminate|exact Hrd].
Qed.

Lemma reachable_blocked (verbose : bool) (f : ifstream) (d : serial)
      (c : config) :
  reachable verbose f d c ->
  fst c = PBlocked ->
  pending_lengths (snd c) <> [] /\
  readSerialLine (rx (fd (snd c))) [] = None.
Proof.
  induction 1 as [|c Hr IH]; [discriminate|].
  destruct c as [p st]. unfold step. cbn [fst snd] in *.
  destruct p; auto.
  - intros H. destruct (fill_iter_pc verbose st); congruence.
  - apply ack_phase_blocked.
Qed.

Lemma after_failed_write_writes (h : list event) :
  match after_failed_write h with
  | Some _ => Exists short_write (writes h)
  | None => ~ Exists short_write (writes h)
  end.
Proof.
  induction h as [|e h IH]; cbn [after_failed_write writes].
  - intros H. inversion H.
  - destruct e; try exact IH.
    cbn [writes]. destruct (ret =? Z.of_nat (List.length buf)) eqn:E.
    + apply Z.eqb_eq in E.
      destruct (after_failed_write h).
      * now apply Exists_cons_tl.
      * intros H. inversion H; subst; [|contradiction].
        unfold short_write in *. simpl in *. contradiction.
    + apply Z.eqb_neq in E. now apply Exists_cons_hd.
Qed.

Lemma main_result (verbose : bool) (fuel : nat) (f : ifstream) (d : serial)
      (st : state) (rc : Z) :
  main verbose fuel f d = Some (st, rc) ->
  exists st',
    reachable verbose f d (PDone, st') /\
    history st = history st' /\ rc = return_code st' /\
    low st = low st'.
Proof.
  unfold main. intros H.
  pose proof (reachable_run_loop verbose f d fuel _ (reach_init verbose f d))
    as Hr.
  destruct (run_loop verbose fuel (PFill, init_state f d)) as [p st'].
  destruct p; try discriminate.
  unfold finish in H. injection H as <- <-.
  exists st'. repeat split; auto using print_if_history, low_print_if.
Qed.

(** X11. The value [main] returns tells about writes and about nothing
    else: it is 0 or 1, and it is 1 exactly when some [write] did not
    transfer the whole line.  A response that is not an acknowledgment, a
    closed connection or a failed read never make it differ from 0. *)
Theorem exit_code_reports_writes (verbose : bool) (fuel : nat)
        (f : ifstream) (d : serial) (st : state) (rc : Z) :
  main verbose fuel f d = Some (st, rc) ->
  (rc = 0 \/ rc = 1) /\
  (rc = 1 <-> Exists short_write (writes (history st))).
Proof.
  intros H. destruct (main_result _ _ _ _ _ _ H) as (st' & Hr & -> & -> & _).
  pose proof (reachable_write_failure_ok _ _ _ _ Hr) as Hw.
  unfold write_failure_ok in Hw. cbn [snd] in Hw.
  pose proof (after_failed_write_writes (history st')) as Ha.
  destruct (after_failed_write (history st')).
  - destruct Hw as (-> & _). split; [now right|]. now split.
  - rewrite Hw. split; [now left|]. split; [discriminate|contradiction].
Qed.

Lemma exit_code_reports_writes_witness :
  exists st,
    main false 20 five_commands error9_device = Some (st, 0) /\
    ~ Exists short_write (writes (history st)).
Proof.
  destruct (main false 20 five_commands error9_device) as [[st rc]|] eqn:E;
    [|vm_compute in E; discriminate].
  assert (Hrc : rc = 0) by (vm_compute in E; now injection E as _ <-).
  exists st. subst rc. split; [reflexivity|].
  destruct (exit_code_reports_writes false 20 five_commands error9_device
              st 0 E) as (_ & Hiff).
  intros Hex. apply Hiff in Hex. discriminate.
Defined.

(** ** The loop always comes to an end *)

Ltac loop_fields :=
  constructor; cbn [fst snd]; proj; rewrite ?alive_mk; cbn [negb andb];
  auto; try discriminate; try lia.

Lemma fill_iter_progress (verbose : bool) (bytes : str) (floor : nat)
      (st : state) :
  loop_inv bytes floor (PFill, st) ->
  exists floor',
    loop_inv bytes floor' (fill_iter verbose st) /\
    (term_measure bytes floor' (fill_iter verbose st)
     < term_measure bytes floor (PFill, st))%nat.
Proof.
  intros [Hc Hp Hf Hnl Hpf]. cbn [fst snd] in *.
  unfold fill_iter, term_measure. cbn [fst snd].
  destruct (available st >? 0).
  2:{ exists floor. split; [loop_fields|cbn [fst snd]; lia]. }
  destruct (alive (gcode_file st)) eqn:Ha.
  2:{ rewrite getline_dead by exact Ha. exists floor. split.
      - unfold alive in Ha.
        loop_fields; destruct (eofbit (gcode_file st)); discriminate.
      - cbn [fst snd]. proj. lia. }
  destruct (getline (gcode_file st) (line st)) as [[f1 raw] ok] eqn:Hg.
  rewrite <- Hc in Hp.
  destruct (getline_cases _ _ _ _ _ Hg Ha Hp)
    as [(i & -> & -> & Hlen & Hlt & Hnth & Hi0)
       |[(-> & ->)|(-> & -> & Hlen & Hpos & Hnn)]];
    rewrite Hc in *.
  - destruct (filter_line raw) as [l|] eqn:Hfl.
    2:{ exists floor. split; [|cbn [fst snd]; proj; lia].
        loop_fields; try (intros _; destruct (Hpf eq_refl); lia). }
    destruct (filter_line_length _ _ Hfl) as [Hl1 Hl2].
    assert (Hfp : (floor <= gpos (gcode_file st))%nat).
    { apply (floor_below_pos bytes); auto.
      intros Hn. apply Hi0 in Hn. lia. }
    destruct (wire_length l >? to_size_t (available st)).
    + rewrite seek_offset, seekg_cur_back by lia.
      exists floor. split; [|cbn [fst snd]; proj; lia].
      loop_fields.
    + unfold dev_write. proj. destruct (negb _); proj.
      * exists floor. split; [loop_fields|cbn [fst snd]; proj; lia].
      * exists (gpos (gcode_file st) + i + 1)%nat. split.
        -- loop_fields. intros _. right. rewrite <- Hnth. f_equal. lia.
        -- cbn [fst snd]. proj. rewrite length_app. simpl. nia.
  - exists floor. split; [loop_fields|cbn [fst snd]; proj; lia].
  - destruct (filter_line raw) as [l|] eqn:Hfl.
    2:{ exists floor. split; [loop_fields|cbn [fst snd]; proj; lia]. }
    destruct (filter_line_length _ _ Hfl) as [Hl1 Hl2].
    assert (Hfp : (floor <= gpos (gcode_file st))%nat)
      by (apply (floor_below_pos bytes); auto).
    destruct (wire_length l >? to_size_t (available st)).
    + rewrite seek_offset.
      destruct (Nat.le_gt_cases (List.length l + 1) (List.length bytes))
        as [Hfits|Hout].
      * rewrite seekg_cur_back by exact Hfits.
        exists floor. split; [|cbn [fst snd]; proj; lia].
        loop_fields.
      * rewrite seekg_cur_before_start by exact Hout.
        exists floor. split; [loop_fields|cbn [fst snd]; proj; lia].
    + unfold dev_write. proj. destruct (negb _); proj.
      * exists floor. split; [loop_fields|cbn [fst snd]; proj; lia].
      * exists (List.length bytes). split; [loop_fields|].
        cbn [fst snd]. proj. rewrite length_app. simpl. nia.
Qed.

Lemma ack_phase_progress (verbose : bool) (bytes : str) (floor : nat)
      (st : state) :
  loop_inv bytes floor (PAck, st) ->
  loop_inv bytes floor (ack_phase verbose st) /\
  (term_measure bytes floor (ack_phase verbose st)
   < term_measure bytes floor (PAck, st))%nat.
Proof.
  intros [Hc Hp Hf Hnl Hpf]. cbn [fst snd] in *.
  unfold ack_phase, term_measure. cbn [fst snd].
  destruct (pending_lengths st) as [|len rest] eqn:Hq.
  { split; [loop_fields|cbn [fst snd]; rewrite Hq; simpl; lia]. }
  rewrite print_if_fd.
  destruct (readSerialLine (rx (fd st)) []) as [[[r rx'] perrs]|].
  2:{ split; [loop_fields|cbn [fst snd]; proj; rewrite Hq; simpl; lia]. }
  destruct (is_ack r); proj.
  2:{ split; [loop_fields|cbn [fst snd]; proj; rewrite Hq; simpl; lia]. }
  rewrite Hq. destruct (negb _); proj;
    (split; [loop_fields|cbn [fst snd]; proj; nia]).
Qed.

Lemma run_loop_progress (verbose : bool) (bytes : str) (fuel : nat) :
  forall floor c,
    loop_inv bytes floor c ->
    (term_measure bytes floor c < fuel)%nat ->
    fst (run_loop verbose fuel c) = PDone \/
    fst (run_loop verbose fuel c) = PBlocked.
Proof.
  induction fuel as [|k IH]; intros floor c H Hm; [lia|].
  cbn [run_loop]. destruct c as [p st]. cbn [fst].
  destruct p; auto.
  - destruct (fill_iter_progress verbose bytes floor st H) as (floor' & H' & Hlt).
    unfold step. cbn [fst snd]. apply (IH floor'); [exact H'|lia].
  - destruct (ack_phase_progress verbose bytes floor st H) as (H' & Hlt).
    unfold step. cbn [fst snd]. apply (IH floor); [exact H'|lia].
Qed.

(** X12. The loop cannot spin: for every file and every behaviour of the
    device (failed writes, error responses and silence included), after at
    most [enough_fuel] steps, a number that depends on the size of the
    file alone, control has left the loop or the program is waiting in
    [readSerialLine] for good. *)
Theorem loop_ends_or_blocks (verbose : bool) (bytes : str) (d : serial)
        (extra : nat) :
  let c := run_loop verbose (enough_fuel (List.length bytes) + extra)
                    (PFill, init_state (open_file bytes) d) in
  fst c = PDone \/ fst c = PBlocked.
Proof.
  apply (run_loop_progress verbose bytes _ O).
  - constructor; cbn [fst snd]; simpl; auto; lia.
  - unfold term_measure, enough_fuel. cbn [fst snd]. simpl. lia.
Qed.

(** ** A clean file is streamed whole *)

Lemma join_app (a b : list str) : join (a ++ b) = join a ++ join b.
Proof. unfold join. now rewrite flat_map_app. Qed.

Lemma emit_app (a b : list str) : emit (a ++ b) = emit a ++ emit b.
Proof. unfold emit. now rewrite flat_map_app. Qed.

Lemma emit_snoc (done : list str) (raw : str) :
  emit (done ++ [raw]) = emit done ++ emit_line raw.
Proof. rewrite emit_app. unfold emit at 2. simpl. now rewrite app_nil_r. Qed.

Lemma join_snoc_length (done : list str) (raw : str) :
  List.length (join (done ++ [raw]))
  = (List.length (join done) + List.length raw + 1)%nat.
Proof.
  rewrite join_app, length_app. unfold join at 2. simpl.
  rewrite app_nil_r, length_app. simpl. lia.
Qed.

Lemma find_char_line (raw rest : str) :
  no_newline raw = true ->
  find_char NL (raw ++ NL :: rest) = Some (List.length raw).
Proof.
  unfold no_newline. induction raw as [|x raw IH]; simpl; intros H.
  - reflexivity.
  - apply andb_prop in H as [Hx Hr]. apply negb_true_iff in Hx.
    now rewrite Hx, IH.
Qed.

Lemma skipn_join (done todo : list str) :
  skipn (List.length (join done)) (join (done ++ todo)) = join todo.
Proof. rewrite join_app. apply skipn_length_app. Qed.

Lemma getline_next_line (done rest : list str) (raw line0 : str) :
  no_newline raw = true ->
  getline (mk_ifstream (join (done ++ raw :: rest))
                       (List.length (join done)) false false) line0
  = (mk_ifstream (join (done ++ raw :: rest))
                 (List.length (join done) + List.length raw + 1) false false,
     raw, true).
Proof.
  intros Hn. unfold getline. cbn [eofbit failbit orb content gpos].
  rewrite skipn_join. cbn [join flat_map]. rewrite <- app_assoc.
  cbn [app]. rewrite find_char_line by exact Hn.
  now rewrite firstn_app, Nat.sub_diag, firstn_all, app_nil_r.
Qed.

Lemma getline_at_end (done : list str) (line0 : str) :
  getline (mk_ifstream (join done) (List.length (join done)) false false) line0
  = (mk_ifstream (join done) (List.length (join done)) true true, [], false).
Proof.
  unfold getline. cbn [eofbit failbit orb content gpos].
  now rewrite skipn_all.
Qed.

Lemma alive_flags (f : ifstream) :
  alive f = true ->
  f = mk_ifstream (content f) (gpos f) false false.
Proof.
  unfold alive. destruct f as [b p e fl]. simpl.
  destruct e, fl; try discriminate. reflexivity.
Qed.

Lemma budget_exhausted_backlog (st : state) :
  budget_ok st -> available st < RX_BUFFER_SIZE -> pending_lengths st <> [].
Proof.
  intros (_ & Hsum & _) Ha Hq. rewrite Hq in Hsum. simpl in Hsum. lia.
Qed.

Lemma fill_iter_stream (verbose : bool) (lines : list str) (tx0 : str)
      (st : state) :
  Forall streamable_line lines ->
  budget_ok st ->
  stream_inv lines tx0 (PFill, st) ->
  stream_inv lines tx0 (fill_iter verbose st).
Proof.
  intros Hlines Hb (Hc & Hrc & Hw & Hcase). cbn [fst snd] in *.
  pose proof Hb as (Hpos & Hsum & Hall).
  pose proof (sum_lengths_nonneg _ Hall) as Hq0.
  unfold fill_iter.
  destruct (available st >? 0) eqn:Hav.
  2:{ rewrite Z.gtb_ltb in Hav. apply Z.ltb_ge in Hav.
      unfold stream_inv. cbn [fst snd].
      split; [exact Hc|]. split; [exact Hrc|]. split; [exact Hw|].
      destruct Hcase as [(Ha & Hd & _)|Hdead]; [left|now right].
      split; [exact Ha|]. split; [exact Hd|]. right.
      apply budget_exhausted_backlog; [exact Hb|unfold RX_BUFFER_SIZE; lia]. }
  destruct Hcase as [(Ha & (done & todo & Hl & Hp & Htx) & _)|(Hdead & Htx)].
  2:{ rewrite getline_dead by exact Hdead. unfold stream_inv. proj.
      split; [exact Hc|]. split; [exact Hrc|]. split; [exact Hw|].
      right. split; [|exact Htx]. unfold alive. cbn. apply andb_false_r. }
  rewrite (alive_flags _ Ha), Hc, Hp. subst lines.
  destruct todo as [|raw rest].
  { rewrite app_nil_r in *. rewrite getline_at_end. unfold stream_inv. proj.
    split; [reflexivity|]. split; [exact Hrc|]. split; [exact Hw|].
    right. split; [reflexivity|exact Htx]. }
  assert (Hraw : streamable_line raw).
  { rewrite Forall_forall in Hlines. apply Hlines, in_elt. }
  destruct Hraw as (Hnl & Hfilter).
  rewrite getline_next_line by exact Hnl.
  destruct Hfilter as [Hnone|(Hsome & Hlen)].
  - rewrite Hnone. unfold stream_inv. proj.
    split; [reflexivity|]. split; [exact Hrc|]. split; [exact Hw|].
    left. split; [reflexivity|]. split; [|now left].
    exists (done ++ [raw]), rest. rewrite <- app_assoc. split; [reflexivity|].
    split; [now rewrite join_snoc_length|].
    rewrite emit_snoc. unfold emit_line.
    now rewrite Hnone, !app_nil_r.
  - rewrite Hsome.
    rewrite to_size_t_small
      by (unfold RX_BUFFER_SIZE in *; rewrite Z.gtb_ltb in Hav;
          apply Z.ltb_lt in Hav; lia).
    destruct (wire_length raw >? available st) eqn:Hfit.
    + rewrite Z.gtb_ltb in Hfit. apply Z.ltb_lt in Hfit.
      rewrite seek_offset, seekg_cur_back by lia.
      unfold stream_inv. proj.
      split; [reflexivity|]. split; [exact Hrc|]. split; [exact Hw|].
      left. split; [reflexivity|]. split.
      * exists done, (raw :: rest). split; [reflexivity|].
        split; [lia|exact Htx].
      * right. apply budget_exhausted_backlog; [exact Hb|lia].
    + unfold dev_write. proj. rewrite Hw, Z.eqb_refl. cbn [negb].
      unfold stream_inv. proj.
      split; [reflexivity|]. split; [exact Hrc|]. split; [exact Hw|].
      left. split; [reflexivity|]. split; [|now left].
      exists (done ++ [raw]), rest. rewrite <- app_assoc. split; [reflexivity|].
      split; [now rewrite join_snoc_length|].
      rewrite firstn_length_all, Htx, emit_snoc, <- app_assoc.
      unfold emit_line. now rewrite Hsome.
Qed.

Lemma ack_phase_stream (verbose : bool) (lines : list str) (tx0 : str)
      (st : state) :
  stream_inv lines tx0 (PAck, st) ->
  stream_inv lines tx0 (ack_phase verbose st).
Proof.
  intros (Hc & Hrc & Hw & Hcase). cbn [fst snd] in *.
  assert (Hkeep : forall p st',
             gcode_file st' = gcode_file st -> return_code st' = 0 ->
             write_ret (fd st') = write_ret (fd st) ->
             tx (fd st') = tx (fd st) ->
             (p = PFill \/ pending_lengths st <> [] ->
              p = PFill \/ pending_lengths st' <> []) ->
             stream_inv lines tx0 (p, st')).
  { intros p st' Hf Hr Hwr Htx Hp. unfold stream_inv. cbn [fst snd].
    rewrite Hf, Htx. split; [exact Hc|]. split; [exact Hr|].
    split; [unfold writes_complete; now rewrite Hwr|].
    destruct Hcase as [(Ha & Hd & [Hpc|Hq])|Hdead]; [discriminate| |now right].
    left. split; [exact Ha|]. split; [exact Hd|]. apply Hp. now right. }
  unfold ack_phase.
  destruct (pending_lengths st) as [|len rest] eqn:Hq.
  { unfold stream_inv. cbn [fst snd].
    split; [exact Hc|]. split; [exact Hrc|]. split; [exact Hw|].
    destruct Hcase as [(_ & _ & [Hpc|Hne])|Hdead];
      [discriminate|now elim Hne|now right]. }
  rewrite print_if_fd.
  destruct (readSerialLine (rx (fd st)) []) as [[[r rx'] perrs]|].
  2:{ apply Hkeep; proj; auto. intros _. right. rewrite Hq. discriminate. }
  destruct (is_ack r); proj.
  2:{ apply Hkeep; proj; auto. intros _. right. rewrite Hq. discriminate. }
  rewrite Hq. proj. rewrite Hrc. cbn [Z.eqb negb]. apply Hkeep; proj; auto.
Qed.

Lemma reachable_stream_inv (verbose : bool) (lines : list str) (d : serial)
      (c : config) :
  Forall streamable_line lines ->
  writes_complete d ->
  reachable verbose (open_file (join lines)) d c ->
  stream_inv lines (tx d) c.
Proof.
  intros Hlines Hw. induction 1 as [|c Hr IH].
  - unfold stream_inv. cbn [fst snd]. simpl.
    split; [reflexivity|]. split; [reflexivity|]. split; [exact Hw|].
    left. split; [reflexivity|]. split; [|now left].
    exists [], lines. simpl. now rewrite app_nil_r.
  - pose proof (reachable_budget_ok _ _ _ _ Hr) as Hb.
    destruct c as [p st]. unfold step. cbn [fst snd] in *.
    destruct p; auto using fill_iter_stream, ack_phase_stream.
Qed.

Lemma run_loop_clean_file (verbose : bool) (lines : list str) (d : serial)
      (fuel : nat) :
  Forall streamable_line lines ->
  writes_complete d ->
  supplies_acks (List.length (join lines)) (rx d) = true ->
  (enough_fuel (List.length (join lines)) <= fuel)%nat ->
  exists st,
    run_loop verbose fuel (PFill, init_state (open_file (join lines)) d)
    = (PDone, st) /\
    return_code st = 0 /\
    pending_lengths st = [] /\
    tx (fd st) = tx d ++ emit lines.
Proof.
  intros Hlines Hw Hs Hfuel.
  pose proof (term_inv_init (join lines) d Hw Hs) as Hinit.
  destruct (run_loop_term verbose (join lines) fuel O _ Hinit)
    as (st & Hrun & Hrc & Hq).
  { unfold term_measure, enough_fuel in *. cbn [fst snd]. simpl. lia. }
  assert (Hr : reachable verbose (open_file (join lines)) d (PDone, st)).
  { rewrite <- Hrun. apply reachable_run_loop, reach_init. }
  exists st. split; [exact Hrun|]. split; [exact Hrc|]. split; [exact Hq|].
  destruct (reachable_stream_inv verbose lines d _ Hlines Hw Hr)
    as (_ & _ & _ & [(_ & _ & [Hp|Hne])|(_ & Htx)]); cbn [fst snd] in *.
  - discriminate.
  - contradiction.
  - exact Htx.
Qed.

(** X13. A clean file is streamed whole and in order.  Let the source
    consist of newline-terminated lines each of which either gives no
    command (blank or comment only) or is its own command (no comment, no
    trailing whitespace) of at most 126 characters.  If every [write]
    transfers the whole line and the device acknowledges every read, the
    program returns 0 and the device has received exactly the commands of
    the file, in the order of the file, each followed by one newline,
    however often a command had to be held back. *)
Theorem clean_file_streamed (verbose : bool) (lines : list str) (d : serial)
        (fuel : nat) :
  Forall streamable_line lines ->
  writes_complete d ->
  supplies_acks (List.length (join lines)) (rx d) = true ->
  (enough_fuel (List.length (join lines)) <= fuel)%nat ->
  exists st,
    main verbose fuel (open_file (join lines)) d = Some (st, 0) /\
    tx (fd st) = tx d ++ emit lines /\
    pending_lengths st = [].
Proof.
  intros Hlines Hw Hs Hfuel.
  destruct (run_loop_clean_file verbose lines d fuel Hlines Hw Hs Hfuel)
    as (st & Hrun & Hrc & Hq & Htx).
  exists (fst (finish verbose st)).
  unfold main. rewrite Hrun. unfold finish. cbn [fst snd]. proj.
  rewrite Hrc. auto.
Qed.

Lemma clean_file_streamed_witness :
  exists st,
    main false (enough_fuel 261)
         (open_file (join [repeat "X"%char 100; []; lit "; note";
                           repeat "Y"%char 100; lit "G1 X1"; lit "   ";
                           repeat "Z"%char 40]))
         (sample_device (ok_script 264))
    = Some (st, 0) /\
    tx (fd st) = join [repeat "X"%char 100; repeat "Y"%char 100;
                       lit "G1 X1"; repeat "Z"%char 40].
Proof.
  destruct (clean_file_streamed false
              [repeat "X"%char 100; []; lit "; note";
               repeat "Y"%char 100; lit "G1 X1"; lit "   ";
               repeat "Z"%char 40]
              (sample_device (ok_script 264)) (enough_fuel 261))
    as (st & Hm & Htx & _).
  - repeat (apply Forall_cons;
            [split; [reflexivity|];
             first [left; reflexivity
                   |right; split; [reflexivity|vm_compute; congruence]]|]).
    apply Forall_nil.
  - intros i size. reflexivity.
  - vm_compute. reflexivity.
  - replace (List.length (join _)) with 261%nat by reflexivity.
    apply Nat.le_refl.
  - exists st. split; [exact Hm|]. rewrite Htx. reflexivity.
Defined.

(** ** The command line *)

Lemma parse_options_find (cli : list cli_event) (o : options) :
  parse_options cli o =
  match find stops cli with
  | Some GetoptH => ParseReturn 0
  | Some (GetoptOther _) => ParseReturn 1
  | Some _ => ParseThrow
  | None =>
      Parsed (mk_options (last_serial cli (serial_device o))
                         (last_file cli (gcode_file_path o))
                         (last_baud cli (baud_int o))
                         (verbose_opt o || existsb asks_verbose cli))
  end.
Proof.
  revert o. induction cli as [|e cli IH]; intros o.
  - destruct o. simpl. now rewrite orb_false_r.
  - destruct e as [a|a|a [n|]| | |c]; cbn [parse_options find stops];
      try reflexivity; rewrite IH; destruct (find stops cli);
      try reflexivity; cbn; try reflexivity.
    now rewrite orb_true_r.
Qed.

(** X14. The option loop of lines 115-136 is settled by the first option
    that ends it: [-h] makes [main] return 0, an option it does not know
    makes it return 1, a rate that [std::stoi] rejects ends the program
    with an exception; options after that one are not looked at.  When
    there is none, every setting is the one of its last occurrence: the
    last [-S], the last [-f], the last [-b] (115200 without one), and
    verbose output as soon as one [-v] is there. *)
Theorem parse_options_last_wins (cli : list cli_event) :
  parse_options cli default_options =
  match find stops cli with
  | Some GetoptH => ParseReturn 0
  | Some (GetoptOther _) => ParseReturn 1
  | Some _ => ParseThrow
  | None =>
      Parsed (mk_options (last_serial cli None) (last_file cli None)
                         (last_baud cli 115200)
                         (existsb asks_verbose cli))
  end.
Proof. apply (parse_options_find cli default_options). Qed.

(** ** The set-up of the connection *)

Lemma initial_response_calls (retval : Z) (d d2 : serial)
      (banner : list console_out) (perrs : list console_err)
      (ci : list syscall) :
  initial_response retval d = Some (d2, banner, perrs, ci) ->
  (ci = [ScSelect retval] \/
   exists response, ci = [ScSelect retval; ScReadLine (Some response)]) /\
  write_ret d2 = write_ret d /\ nwrites d2 = nwrites d /\ tx d2 = tx d /\
  (forall m, In m banner -> exists response, m = Setup (MInitial response)).
Proof.
  unfold initial_response. destruct (retval >? 0).
  - destruct (readSerialLine (rx d) []) as [[[response rx'] pe]|];
      [|discriminate].
    intros H. injection H as <- <- <- <-.
    split; [right; now exists response|]. repeat split.
    destruct response; intros m []; subst; eauto. contradiction.
  - intros H. injection H as <- <- <- <-. split; [now left|].
    repeat split. intros m [].
Qed.

(** X15. No byte reaches the device before the port is set up.  If a run
    of the program hands anything to the device, then the options named a
    device and a file, [open] succeeded, the rate is one [get_baudrate]
    knows and [tcsetattr] returned 0; the calls made begin with [open],
    the setting of input and output speed to that one rate, the flush and
    [tcsetattr], and the first bytes written are the wake-up sequence
    ["\r\n\r\n"], followed by the two-second pause and a second flush. *)
Theorem device_written_only_when_configured (argc : Z) (progName : str)
        (cli : list cli_event) (env : setup_env) (fuel : nat) :
  existsb writes_device (calls (main_argv argc progName cli env fuel)) = true ->
  exists o dev path speed rest,
    parse_options cli default_options = Parsed o /\
    serial_device o = Some dev /\
    gcode_file_path o = Some path /\
    open_ret env <> -1 /\
    get_baudrate (baud_int o) = Some speed /\
    tcsetattr_ret env = 0 /\
    calls (main_argv argc progName cli env fuel)
    = configured_prefix dev (open_ret env) speed
        (snd (dev_write (device env) wake_up)) ++ rest.
Proof.
  unfold main_argv.
  destruct (parse_options cli default_options) as [o| |]; try discriminate.
  destruct (argc =? 1); [discriminate|].
  destruct (serial_device o) as [dev|] eqn:Hdev; [|discriminate].
  destruct (gcode_file_path o) as [path|] eqn:Hpath; [|discriminate].
  unfold run_with.
  destruct (open_ret env =? -1) eqn:Hopen; [discriminate|].
  apply Z.eqb_neq in Hopen.
  destruct (get_baudrate (baud_int o)) as [speed|] eqn:Hbaud; [|discriminate].
  destruct (tcsetattr_ret env =? 0) eqn:Hattr; cbn [negb]; [|discriminate].
  apply Z.eqb_eq in Hattr. intros _.
  exists o, dev, path, speed.
  unfold configured_prefix. rewrite Hattr.
  destruct (dev_write (device env) wake_up) as [d1 r]. cbn [snd].
  destruct (initial_response (initial_select env) d1)
    as [[[[d2 banner] perrs] ci]|].
  2:{ eexists. repeat split; auto. }
  destruct (gcode env) as [bytes|].
  2:{ eexists. repeat split; auto. }
  destruct (run_loop (verbose_opt o) fuel
              (PFill, init_state (open_file bytes) d2)) as [p st].
  destruct p; eexists; repeat split; auto.
Qed.

Lemma device_written_only_when_configured_witness :
  exists rest,
    calls (main_argv 6 (lit "grbl_streamer") sample_cli sample_env 20)
    = configured_prefix (lit "/dev/ttyUSB0") 3 B115200 4 ++ rest.
Proof.
  destruct (device_written_only_when_configured 6 (lit "grbl_streamer")
              sample_cli sample_env 20)
    as (o & dev & path & speed & rest & Hp & Hd & _ & _ & Hb & _ & Hc);
    [vm_compute; reflexivity|].
  injection Hp as <-. injection Hd as <-. injection Hb as <-.
  exists rest. exact Hc.
Defined.

(** X16. The descriptor of the serial port is not left open on a
    return.  Whenever [main] returns, one of three things holds.  It made
    no call at all: then it returned from the option loop ([-h] or an
    option it does not know), or it was started without any argument and
    returned 0, or the device or the file was not given and it
    returned 1.  Or [open] failed: that is the only call and [main]
    returned 1.  Or [open] succeeded: then the last call is [close] on
    the descriptor, made once, and if the G-code file was opened the file
    was closed just before. *)
Theorem descriptor_closed_on_return (argc : Z) (progName : str)
        (cli : list cli_event) (env : setup_env) (fuel : nat) (st : Z) :
  status (main_argv argc progName cli env fuel) = Returned st ->
  let cs := calls (main_argv argc progName cli env fuel) in
  (cs = [] /\
   (parse_options cli default_options = ParseReturn st \/
    exists o,
      parse_options cli default_options = Parsed o /\
      ((argc = 1 /\ st = 0) \/
       (argc <> 1 /\ st = 1 /\
        (serial_device o = None \/ gcode_file_path o = None))))) \/
  (exists dev, cs = [ScOpen dev (-1)] /\ open_ret env = -1 /\ st = 1) \/
  (exists dev pre,
      open_ret env <> -1 /\
      cs = ScOpen dev (open_ret env) :: pre ++ [ScClose] /\
      ~ In ScClose pre /\
      (forall path, In (ScOpenFile path true) pre ->
                    exists pre', pre = pre' ++ [ScCloseFile])).
Proof.
  cbv zeta. unfold main_argv.
  destruct (parse_options cli default_options) as [o|s|];
    [| intros H; injection H as <-; left; split; [reflexivity|now left]
     | discriminate].
  destruct (argc =? 1) eqn:Hargc.
  { apply Z.eqb_eq in Hargc. intros H. injection H as <-.
    left. split; [reflexivity|]. right. exists o. split; [reflexivity|].
    left. now split. }
  apply Z.eqb_neq in Hargc.
  destruct (serial_device o) as [dev|] eqn:Hdev.
  2:{ intros H. injection H as <-.
      left. split; [reflexivity|]. right. exists o. split; [reflexivity|].
      right. split; [exact Hargc|]. split; [reflexivity|now left]. }
  destruct (gcode_file_path o) as [path|] eqn:Hpath.
  2:{ intros H. injection H as <-.
      left. split; [reflexivity|]. right. exists o. split; [reflexivity|].
      right. split; [exact Hargc|]. split; [reflexivity|now right]. }
  unfold run_with.
  destruct (open_ret env =? -1) eqn:Hopen.
  { apply Z.eqb_eq in Hopen. rewrite Hopen. intros H. injection H as <-.
    right. left. now exists dev. }
  apply Z.eqb_neq in Hopen.
  destruct (get_baudrate (baud_int o)) as [speed|]; [|discriminate].
  destruct (negb (tcsetattr_ret env =? 0)).
  { intros _. right. right.
    exists dev, [ScTcgetattr; ScCfsetispeed speed; ScCfsetospeed speed;
                 ScTcflush; ScTcsetattr (tcsetattr_ret env)].
    split; [exact Hopen|]. split; [reflexivity|]. split.
    - cbn. intuition discriminate.
    - intros p Hin. cbn in Hin. intuition discriminate. }
  destruct (dev_write (device env) wake_up) as [d1 r].
  destruct (initial_response (initial_select env) d1)
    as [[[[d2 banner] perrs] ci]|] eqn:Hinit; [|discriminate].
  destruct (initial_response_calls _ _ _ _ _ _ Hinit) as (Hci & _).
  set (pre8 := [ScTcgetattr; ScCfsetispeed speed; ScCfsetospeed speed;
                ScTcflush; ScTcsetattr (tcsetattr_ret env);
                ScWrite wake_up r; ScSleep 2; ScTcflush]).
  destruct (gcode env) as [bytes|].
  2:{ intros _. right. right.
      exists dev, (pre8 ++ ci ++ [ScOpenFile path false]).
      split; [exact Hopen|].
      split; [subst pre8; cbn [calls app]; rewrite <- ?app_assoc;
              reflexivity|].
      subst pre8.
      destruct Hci as [->|(resp & ->)]; split;
        cbn; intuition discriminate. }
  destruct (run_loop (verbose_opt o) fuel
              (PFill, init_state (open_file bytes) d2)) as [p s];
    destruct p; try discriminate.
  intros _. right. right.
  exists dev,
    (pre8 ++ ci ++ [ScOpenFile path true;
                    ScStream (history (fst (finish (verbose_opt o) s)))]
          ++ [ScCloseFile]).
  split; [exact Hopen|].
  split; [subst pre8; cbn [calls finish fst app]; rewrite <- ?app_assoc;
          reflexivity|].
  split.
  - subst pre8. destruct Hci as [->|(resp & ->)];
      cbn; intuition discriminate.
  - intros p _. eexists. rewrite !app_assoc. reflexivity.
Qed.

Lemma descriptor_closed_on_return_witness :
  exists dev pre,
    calls (main_argv 6 (lit "grbl_streamer") sample_cli sample_env 20)
    = ScOpen dev 3 :: pre ++ [ScClose] /\
    ~ In ScClose pre.
Proof.
  destruct (descriptor_closed_on_return 6 (lit "grbl_streamer") sample_cli
              sample_env 20 0)
    as [(H & _)|[(dev & H & _)|(dev & pre & _ & H1 & H2 & _)]];
    [vm_compute; reflexivity
    |vm_compute in H; discriminate
    |vm_compute in H; discriminate
    |].
  exists dev, pre. split; assumption.
Defined.

Lemma parse_options_quiet (cli : list cli_event) (o o' : options) :
  serial_device o = serial_device o' ->
  gcode_file_path o = gcode_file_path o' ->
  baud_int o = baud_int o' ->
  verbose_opt o' = false ->
  match parse_options cli o, parse_options (quiet cli) o' with
  | Parsed a, Parsed b =>
      serial_device a = serial_device b /\
      gcode_file_path a = gcode_file_path b /\
      baud_int a = baud_int b /\
      verbose_opt b = false
  | ParseReturn s, ParseReturn s' => s = s'
  | ParseThrow, ParseThrow => True
  | _, _ => False
  end.
Proof.
  revert o o'; induction cli as [|e cli IH]; intros o o' Hs Hf Hb Hv.
  - cbn. auto.
  - destruct e as [a|a|a [n|]| | |x]; cbn [quiet filter asks_verbose negb];
      fold (quiet cli); cbn [parse_options]; auto;
      apply IH; cbn; auto.
Qed.

Lemma run_with_quiet (o o' : options) (dev path : str) (env : setup_env)
      (fuel : nat) :
  baud_int o = baud_int o' ->
  verbose_opt o' = false ->
  let r := run_with o dev path env fuel in
  let q := run_with o' dev path env fuel in
  status r = status q /\
  errors r = errors q /\
  calls r = calls q /\
  option_map low (stream_state r) = option_map low (stream_state q) /\
  (forall m, In m (console q) -> exists response, m = Setup (MInitial response)).
Proof.
  intros Hb Hv. cbv zeta. unfold run_with. rewrite Hv, <- Hb.
  cbn [says app].
  destruct (open_ret env =? -1).
  { cbn. repeat split; auto. intros m []. }
  destruct (get_baudrate (baud_int o)) as [speed|].
  2:{ cbn. rewrite ?app_nil_r. repeat split; auto. intros m []. }
  destruct (negb (tcsetattr_ret env =? 0)).
  { cbn. rewrite ?app_nil_r. repeat split; auto. intros m []. }
  destruct (dev_write (device env) wake_up) as [d1 w].
  destruct (initial_response (initial_select env) d1)
    as [[[[d2 banner] perrs] ci]|] eqn:Hi.
  2:{ cbn. rewrite ?app_nil_r. repeat split; auto. intros m []. }
  destruct (initial_response_calls _ _ _ _ _ _ Hi) as (_ & _ & _ & _ & Hban).
  destruct (gcode env) as [bytes|].
  2:{ cbn [status errors calls stream_state console option_map].
      rewrite ?app_nil_r. repeat split; auto. }
  pose proof (run_loop_low (verbose_opt o) false fuel
                (PFill, init_state (open_file bytes) d2)
                (PFill, init_state (open_file bytes) d2) eq_refl) as Hlow.
  pose proof (run_loop_quiet fuel (PFill, init_state (open_file bytes) d2))
    as Hq.
  destruct (run_loop (verbose_opt o) fuel
              (PFill, init_state (open_file bytes) d2)) as [p st].
  destruct (run_loop false fuel (PFill, init_state (open_file bytes) d2))
    as [p' st'].
  unfold low_config in Hlow. cbn [fst snd] in Hlow, Hq.
  assert (Hp : p = p') by exact (f_equal fst Hlow).
  assert (Hst : low st = low st') by exact (f_equal snd Hlow).
  clear Hlow. subst p'.
  assert (Hrc : return_code st = return_code st')
    by exact (f_equal return_code Hst).
  assert (Hce : cerr st = cerr st') by exact (f_equal cerr Hst).
  assert (Hh : history st = history st') by exact (f_equal history Hst).
  cbn [init_state cout] in Hq.
  unfold finish.
  destruct p;
    cbn [status errors calls stream_state console option_map print_if];
    rewrite ?low_print_if, ?print_if_cerr, ?print_if_history, ?Hrc, ?Hce, ?Hh,
      ?Hst, ?Hq, ?app_nil_r;
    cbn [map]; rewrite ?app_nil_r; repeat split; auto.
Qed.

(** X17. The option [-v] changes the terminal output and nothing else,
    for the whole program and not only its loop.  Take a command line and
    the same command line without its [-v] options, both with at least one
    argument left or both with none.  Then the two runs end the same way
    (same value returned, or both ended by [exit], by the exception of
    [std::stoi], or both waiting for the device), print the same on
    [std::cerr], make the same calls on the descriptor and on the file
    with the same results, and leave the same state of the streaming loop
    except for [std::cout].  Without [-v] the program prints on
    [std::cout] only the help text or the start-up banner of the device.
    The condition on the argument counts is needed: [-v] alone is answered
    with an error and status 1, no argument at all with the help text and
    status 0. *)
Theorem verbose_option_only_console (argc argc' : Z) (progName : str)
        (cli : list cli_event) (env : setup_env) (fuel : nat) :
  (argc = 1 <-> argc' = 1) ->
  let r := main_argv argc progName cli env fuel in
  let q := main_argv argc' progName (quiet cli) env fuel in
  status r = status q /\
  errors r = errors q /\
  calls r = calls q /\
  option_map low (stream_state r) = option_map low (stream_state q) /\
  (forall m, In m (console q) ->
             m = Setup (MHelp progName) \/
             exists response, m = Setup (MInitial response)).
Proof.
  intros Harg. cbv zeta. unfold main_argv.
  pose proof (parse_options_quiet cli default_options default_options
                eq_refl eq_refl eq_refl eq_refl) as Hp.
  destruct (parse_options cli default_options) as [o|s|];
    destruct (parse_options (quiet cli) default_options) as [o'|s'|];
    try contradiction.
  - destruct Hp as (Hs & Hf & Hb & Hv).
    assert (Ha : (argc =? 1) = (argc' =? 1)).
    { destruct (Z.eqb_spec argc 1) as [H|H], (Z.eqb_spec argc' 1) as [H'|H'];
        tauto. }
    rewrite <- Ha, <- Hs, <- Hf.
    destruct (argc =? 1).
    { cbn. repeat split; auto. intros m [<-|[]]. now left. }
    destruct (serial_device o) as [dev|].
    2:{ cbn. repeat split; auto. intros m [<-|[]]. now left. }
    destruct (gcode_file_path o) as [path|].
    2:{ cbn. repeat split; auto. intros m [<-|[]]. now left. }
    destruct (run_with_quiet o o' dev path env fuel Hb Hv)
      as (H1 & H2 & H3 & H4 & H5).
    repeat split; auto.
  - subst s'. cbn. repeat split; auto. intros m [<-|[]]. now left.
  - cbn. repeat split; auto. intros m [].
Qed.

Lemma verbose_option_only_console_witness :
  status (main_argv 6 (lit "grbl_streamer") sample_cli sample_env 20)
  = status (main_argv 5 (lit "grbl_streamer") (quiet sample_cli) sample_env 20)
  /\ calls (main_argv 6 (lit "grbl_streamer") sample_cli sample_env 20)
  = calls (main_argv 5 (lit "grbl_streamer") (quiet sample_cli) sample_env 20).
Proof.
  destruct (verbose_option_only_console 6 5 (lit "grbl_streamer") sample_cli
              sample_env 20) as (H1 & _ & H3 & _); [lia|].
  split; assumption.
Defined.

(** X18. A whole run on a clean file.  Suppose the command line names a
    device and a file and a rate [get_baudrate] knows, [open] and
    [tcsetattr] succeed, every [write] transfers its whole buffer, the
    wait for a start-up banner comes back, the file opens and consists of
    lines that are blank, comment only, or a command of at most 126
    characters without comment or trailing whitespace, and the device
    acknowledges every later read.  Then the program returns 0; the device
    has received the wake-up sequence followed by the commands of the
    file, in order, one newline after each, and nothing else; and the
    calls made are the set-up, the wait for the banner, the opening of the
    file, the loop, and the closing of file and descriptor. *)
Theorem clean_run_end_to_end (argc : Z) (progName : str)
        (cli : list cli_event) (env : setup_env) (fuel : nat)
        (o : options) (dev path : str) (speed : speed_t)
        (lines : list str) (d2 : serial) (banner : list console_out)
        (perrs : list console_err) (ci : list syscall) :
  argc <> 1 ->
  parse_options cli default_options = Parsed o ->
  serial_device o = Some dev ->
  gcode_file_path o = Some path ->
  get_baudrate (baud_int o) = Some speed ->
  open_ret env <> -1 ->
  tcsetattr_ret env = 0 ->
  writes_complete (device env) ->
  initial_response (initial_select env) (fst (dev_write (device env) wake_up))
  = Some (d2, banner, perrs, ci) ->
  gcode env = Some (join lines) ->
  Forall streamable_line lines ->
  supplies_acks (List.length (join lines)) (rx d2) = true ->
  (enough_fuel (List.length (join lines)) <= fuel)%nat ->
  exists st,
    status (main_argv argc progName cli env fuel) = Returned 0 /\
    stream_state (main_argv argc progName cli env fuel) = Some st /\
    tx (fd st) = tx (device env) ++ wake_up ++ emit lines /\
    pending_lengths st = [] /\
    calls (main_argv argc progName cli env fuel)
    = configured_prefix dev (open_ret env) speed 4 ++ ci
      ++ [ScOpenFile path true; ScStream (history st); ScCloseFile; ScClose].
Proof.
  intros Harg Hp Hdev Hpath Hbaud Hopen Hattr Hw Hi Hg Hlines Hs Hfuel.
  apply Z.eqb_neq in Harg, Hopen.
  assert (Hwake : dev_write (device env) wake_up
                  = (mk_serial (rx (device env)) (write_ret (device env))
                               (S (nwrites (device env)))
                               (tx (device env) ++ wake_up), 4)).
  { unfold dev_write. rewrite Hw. reflexivity. }
  rewrite Hwake in Hi. cbn [fst] in Hi.
  destruct (initial_response_calls _ _ _ _ _ _ Hi)
    as (_ & Hwr & _ & Htx & _).
  cbn [write_ret tx] in Hwr, Htx.
  assert (Hw2 : writes_complete d2).
  { intros i size. rewrite Hwr. apply Hw. }
  destruct (run_loop_clean_file (verbose_opt o) lines d2 fuel Hlines Hw2 Hs
              Hfuel) as (st & Hrun & Hrc & Hq & Hst).
  exists (fst (finish (verbose_opt o) st)).
  unfold main_argv. rewrite Hp, Harg, Hdev, Hpath.
  unfold run_with. rewrite Hopen, Hbaud, Hattr, Hwake. cbn [Z.eqb negb].
  rewrite Hi, Hg, Hrun.
  unfold finish. cbn [fst snd status stream_state calls].
  rewrite print_if_fd, print_if_pending, print_if_history, Hrc, Hst, Htx.
  unfold configured_prefix.
  repeat split; auto.
  - rewrite <- app_assoc. reflexivity.
  - cbn [app]. rewrite <- ?app_assoc. reflexivity.
Qed.

Lemma clean_run_end_to_end_witness :
  exists st,
    status (main_argv 6 (lit "grbl_streamer") sample_cli
              (mk_env 3 0 0 (sample_device (ok_script 35))
                      (Some (join [lit "G1 X10 F100"; []; lit "; comment only";
                                   lit "G1 Y10"])))
              (enough_fuel 35))
    = Returned 0 /\
    tx (fd st) = wake_up ++ join [lit "G1 X10 F100"; lit "G1 Y10"].
Proof.
  destruct (clean_run_end_to_end 6 (lit "grbl_streamer") sample_cli
              (mk_env 3 0 0 (sample_device (ok_script 35))
                      (Some (join [lit "G1 X10 F100"; []; lit "; comment only";
                                   lit "G1 Y10"])))
              (enough_fuel 35)
              (mk_options (Some (lit "/dev/ttyUSB0"))
                          (Some (lit "example.gcode")) 115200 true)
              (lit "/dev/ttyUSB0") (lit "example.gcode") B115200
              [lit "G1 X10 F100"; []; lit "; comment only"; lit "G1 Y10"]
              (mk_serial (ok_script 35) full_write 1 wake_up)
              [] [] [ScSelect 0])
    as (st & Hst & _ & Htx & _).
  - lia.
  - reflexivity.
  - reflexivity.
  - reflexivity.
  - reflexivity.
  - cbn. lia.
  - reflexivity.
  - intros i size. reflexivity.
  - reflexivity.
  - reflexivity.
  - repeat (apply Forall_cons;
            [split; [reflexivity|];
             first [left; reflexivity
                   |right; split; [reflexivity|vm_compute; congruence]]|]).
    apply Forall_nil.
  - vm_compute. reflexivity.
  - replace (List.length (join _)) with 35%nat by reflexivity.
    apply Nat.le_refl.
  - exists st. split; [exact Hst|]. rewrite Htx. reflexivity.
Defined.

(** X10. Where the program waits without end.  A run that is stuck in
    [readSerialLine] for good is in one of two situations.  Either it
    waits for the start-up banner (line 209): the [select] of line 207
    reported data, the port was set up and woken and nothing else was
    done, no command was sent, and nothing the device sends ends a line.
    Or it waits in the loop (line 281), with at least one command sent and
    not yet acknowledged, and again nothing the device still sends ends a
    line.  In both cases more steps change nothing. *)
Theorem waits_only_for_banner_or_ack (argc : Z) (progName : str)
        (cli : list cli_event) (env : setup_env) (fuel : nat) :
  status (main_argv argc progName cli env fuel) = Waiting ->
  let r := main_argv argc progName cli env fuel in
  ((stream_state r = None /\
    0 < initial_select env /\
    forallb continues (rx (device env)) = true /\
    exists dev speed w,
      calls r = configured_prefix dev (open_ret env) speed w
                ++ [ScSelect (initial_select env); ScReadLine None])
   \/
   (exists st,
       stream_state r = Some st /\
       pending_lengths st <> [] /\
       forallb continues (rx (fd st)) = true /\
       exists pre, calls r = pre ++ [ScStream (history st)])) /\
  forall extra, main_argv argc progName cli env (fuel + extra) = r.
Proof.
  cbv zeta. unfold main_argv.
  destruct (parse_options cli default_options) as [o|s|]; try discriminate.
  destruct (argc =? 1); [discriminate|].
  destruct (serial_device o) as [dev|]; [|discriminate].
  destruct (gcode_file_path o) as [path|]; [|discriminate].
  unfold run_with.
  destruct (open_ret env =? -1); [discriminate|].
  destruct (get_baudrate (baud_int o)) as [speed|]; [|discriminate].
  destruct (tcsetattr_ret env =? 0) eqn:Hattr; cbn [negb]; [|discriminate].
  apply Z.eqb_eq in Hattr.
  destruct (dev_write (device env) wake_up) as [d1 w] eqn:Hw.
  assert (Hrx : rx d1 = rx (device env)).
  { unfold dev_write in Hw. injection Hw as <- _. reflexivity. }
  destruct (initial_response (initial_select env) d1)
    as [[[[d2 banner] perrs] ci]|] eqn:Hi.
  2:{ intros _. split; [left|reflexivity].
      unfold initial_response in Hi.
      destruct (initial_select env >? 0) eqn:Hsel; [|discriminate].
      rewrite Z.gtb_ltb in Hsel. apply Z.ltb_lt in Hsel.
      destruct (readSerialLine (rx d1) []) as [[[resp rx'] pe]|] eqn:Hrd;
        [discriminate|].
      apply readSerialLine_blocks_iff_aux in Hrd. rewrite Hrx in Hrd.
      cbn [stream_state calls].
      split; [reflexivity|]. split; [exact Hsel|]. split; [exact Hrd|].
      exists dev, speed, w. unfold configured_prefix. rewrite Hattr.
      cbn [app]. reflexivity. }
  destruct (gcode env) as [bytes|]; [|discriminate].
  destruct (run_loop (verbose_opt o) fuel
              (PFill, init_state (open_file bytes) d2)) as [p st] eqn:Hrun.
  destruct p; try discriminate.
  intros _.
  assert (Hr : reachable (verbose_opt o) (open_file bytes) d2 (PBlocked, st)).
  { rewrite <- Hrun. apply reachable_run_loop, reach_init. }
  destruct (reachable_blocked _ _ _ _ Hr eq_refl) as (Hq & Hrd).
  cbn [fst snd] in Hq, Hrd.
  apply readSerialLine_blocks_iff_aux in Hrd.
  split.
  - right. exists st. cbn [stream_state calls].
    split; [reflexivity|]. split; [exact Hq|]. split; [exact Hrd|].
    eexists. reflexivity.
  - intros extra. rewrite run_loop_add, Hrun.
    rewrite run_loop_blocked by reflexivity. reflexivity.
Qed.

Lemma waits_only_for_banner_or_ack_witness :
  status (main_argv 6 (lit "grbl_streamer") sample_cli
            (mk_env 3 0 1 (sample_device (rx_bytes (lit "Grbl")))
                    (Some (content sample_file)))
            (20 + 7))
  = Waiting.
Proof.
  destruct (waits_only_for_banner_or_ack 6 (lit "grbl_streamer") sample_cli
              (mk_env 3 0 1 (sample_device (rx_bytes (lit "Grbl")))
                      (Some (content sample_file))) 20)
    as (_ & Hmore); [vm_compute; reflexivity|].
  rewrite Hmore. vm_compute. reflexivity.
Defined.
